(** * Trust and audit integrity subsystem of the transcript verifier

    A shallow embedding of the edge functions
    [supabase/functions/blockchain-audit], [verify-with-limit],
    [reset-verification-count], [verify-transcript] and of the SQL functions
    [check_verification_rate_limit] and [log_audit_event], with the
    properties the specification states about them.

    Conventions.  JavaScript strings are modelled as byte strings holding
    their UTF-8 encoding, so [TextEncoder.encode] is the identity on bytes.
    Clock readings ([Date.now()], [new Date()], SQL [now()]) are explicit
    arguments.  Database calls whose error the code inspects or ignores take
    an explicit fault flag.  A call that may throw returns an [outcome]. *)

From Stdlib Require Import ZArith Lia Bool Ascii String List DecimalString Sorted.
From stdpp Require Import base option list gmap strings.

Local Open Scope Z_scope.
Set Warnings "-register-all".

(** ** SHA-256, as computed by [crypto.subtle.digest('SHA-256', ...)] *)

Module Sha256.

Definition w32 (x : Z) : Z := x mod 2 ^ 32.
Definition add32 (a b : Z) : Z := w32 (a + b).
Definition not32 (x : Z) : Z := w32 (Z.lnot x).
Definition rotr (n x : Z) : Z :=
  Z.lor (Z.shiftr x n) (w32 (Z.shiftl x (32 - n))).

Definition Ch (x y z : Z) : Z := Z.lxor (Z.land x y) (Z.land (not32 x) z).
Definition Maj (x y z : Z) : Z :=
  Z.lxor (Z.lxor (Z.land x y) (Z.land x z)) (Z.land y z).
Definition bsig0 (x : Z) : Z := Z.lxor (Z.lxor (rotr 2 x) (rotr 13 x)) (rotr 22 x).
Definition bsig1 (x : Z) : Z := Z.lxor (Z.lxor (rotr 6 x) (rotr 11 x)) (rotr 25 x).
Definition ssig0 (x : Z) : Z := Z.lxor (Z.lxor (rotr 7 x) (rotr 18 x)) (Z.shiftr x 3).
Definition ssig1 (x : Z) : Z := Z.lxor (Z.lxor (rotr 17 x) (rotr 19 x)) (Z.shiftr x 10).

(** The round constants and the initial state are the first 32 bits of the
    fractional parts of the cube roots, respectively square roots, of the
    first primes. *)
Definition is_prime (n : Z) : bool :=
  (1 <? n)
  && forallb (fun d => negb (n mod d =? 0)) (map Z.of_nat (seq 2 (Z.to_nat n - 2))).

Definition primes : list Z :=
  Eval vm_compute in List.filter is_prime (map Z.of_nat (seq 2 310)).

(** The integer cube root, found bit by bit from bit [bits - 1] down. *)
Fixpoint cube_root (bits : nat) (n r : Z) : Z :=
  match bits with
  | O => r
  | S bits' =>
      let c := r + 2 ^ Z.of_nat bits' in
      cube_root bits' n (if c * c * c <=? n then c else r)
  end.

Definition K : list Z :=
  Eval vm_compute in map (fun p => w32 (cube_root 36 (p * 2 ^ 96) 0)) primes.

Definition H0 : list Z :=
  Eval vm_compute in map (fun p => w32 (Z.sqrt (p * 2 ^ 64))) (take 8 primes).

(** Big-endian encoding of [x] on [n] bytes. *)
Fixpoint be_bytes (n : nat) (x : Z) : list Z :=
  match n with
  | O => []
  | S n' => (Z.shiftr x (8 * Z.of_nat n')) mod 256 :: be_bytes n' x
  end.

(** Padding: a one bit, zeros up to 56 modulo 64, the bit length on 64 bits. *)
Definition pad (msg : list Z) : list Z :=
  let len := Z.of_nat (length msg) in
  let zeros := Z.to_nat ((55 - len) mod 64) in
  msg ++ 0x80 :: repeat 0 zeros ++ be_bytes 8 (8 * len).

Fixpoint be_word (bs : list Z) : Z :=
  match bs with
  | [] => 0
  | b :: bs' => Z.lor (Z.shiftl b (8 * Z.of_nat (length bs'))) (be_word bs')
  end.

(** [n] big-endian 32-bit words read from the front of [bs]. *)
Fixpoint words (n : nat) (bs : list Z) : list Z :=
  match n with
  | O => []
  | S n' => be_word (take 4 bs) :: words n' (drop 4 bs)
  end.

(** Message schedule: [win] holds the sixteen latest words, oldest first. *)
Fixpoint extend (n : nat) (win : list Z) : list Z :=
  match n with
  | O => []
  | S n' =>
      let x := add32 (add32 (ssig1 (nth 14 win 0)) (nth 9 win 0))
                     (add32 (ssig0 (nth 1 win 0)) (nth 0 win 0)) in
      x :: extend n' (tail win ++ [x])
  end.

Definition schedule (block : list Z) : list Z :=
  let w16 := words 16 block in w16 ++ extend 48 w16.

Record regs := Regs { ra : Z; rb : Z; rc : Z; rd : Z; re : Z; rf : Z; rg : Z; rh : Z }.

Definition round (s : regs) (kw : Z * Z) : regs :=
  let t1 := add32 (add32 (add32 (rh s) (bsig1 (re s))) (Ch (re s) (rf s) (rg s)))
                  (add32 (fst kw) (snd kw)) in
  let t2 := add32 (bsig0 (ra s)) (Maj (ra s) (rb s) (rc s)) in
  Regs (add32 t1 t2) (ra s) (rb s) (rc s) (add32 (rd s) t1) (re s) (rf s) (rg s).

Definition to_regs (h : list Z) : regs :=
  Regs (nth 0 h 0) (nth 1 h 0) (nth 2 h 0) (nth 3 h 0)
       (nth 4 h 0) (nth 5 h 0) (nth 6 h 0) (nth 7 h 0).

Definition of_regs (s : regs) : list Z :=
  [ra s; rb s; rc s; rd s; re s; rf s; rg s; rh s].

Definition compress (h : list Z) (block : list Z) : list Z :=
  let s := fold_left round (combine K (schedule block)) (to_regs h) in
  map (fun p => add32 (fst p) (snd p)) (combine h (of_regs s)).

Fixpoint blocks (n : nat) (h : list Z) (bs : list Z) : list Z :=
  match n with
  | O => h
  | S n' => blocks n' (compress h (take 64 bs)) (drop 64 bs)
  end.

(** The 32-byte digest of a byte sequence. *)
Definition digest (msg : list Z) : list Z :=
  let p := pad msg in
  flat_map (be_bytes 4) (blocks (length p / 64)%nat H0 p).

End Sha256.

(** ** Byte strings and hexadecimal rendering *)

Fixpoint bytes_of_string (s : string) : list Z :=
  match s with
  | EmptyString => []
  | String c s' => Z.of_N (N_of_ascii c) :: bytes_of_string s'
  end.

Definition hex_digit (d : Z) : ascii :=
  if d <? 10 then ascii_of_N (Z.to_N (48 + d)) else ascii_of_N (Z.to_N (87 + d)).

(** [b.toString(16).padStart(2, '0')] for a byte [b]. *)
Definition hex_byte (b : Z) : string :=
  String (hex_digit (b / 16)) (String (hex_digit (b mod 16)) EmptyString).

(** [Array.from(bytes).map(b => b.toString(16).padStart(2, '0')).join('')] *)
Definition hex_of_bytes (bs : list Z) : string :=
  fold_right (fun b acc => (hex_byte b ++ acc)%string) EmptyString bs.

(** SHA-256 of the UTF-8 bytes of a string, as lowercase hexadecimal. *)
Definition sha256_hex (data : string) : string :=
  hex_of_bytes (Sha256.digest (bytes_of_string data)).

(** ** JSON values and [JSON.stringify]

    Numbers are the integers (the handlers only serialise counts and
    millisecond timestamps); an object lists its properties in enumeration
    order. *)

Inductive json :=
| JNull
| JBool (b : bool)
| JNum (n : Z)
| JStr (s : string)
| JArr (items : list json)
| JObj (props : list (string * json)).

Definition dquote : ascii := ascii_of_N 34.
Definition backslash : ascii := ascii_of_N 92.

Definition escape (c : ascii) : string := String backslash (String c EmptyString).

(** One code unit inside a quoted JSON string. *)
Definition quote_char (c : ascii) : string :=
  let n := Z.of_N (N_of_ascii c) in
  if n =? 34 then escape dquote
  else if n =? 92 then escape backslash
  else if n =? 8 then escape "b"
  else if n =? 12 then escape "f"
  else if n =? 10 then escape "n"
  else if n =? 13 then escape "r"
  else if n =? 9 then escape "t"
  else if n <? 32 then String backslash ("u00" ++ hex_byte n)
  else String c EmptyString.

Fixpoint quote_body (s : string) : string :=
  match s with
  | EmptyString => EmptyString
  | String c s' => (quote_char c ++ quote_body s')%string
  end.

Definition quote (s : string) : string :=
  String dquote (quote_body s ++ String dquote EmptyString).

Fixpoint join (sep : string) (parts : list string) : string :=
  match parts with
  | [] => EmptyString
  | [p] => p
  | p :: rest => (p ++ sep ++ join sep rest)%string
  end.

Definition decimal (n : Z) : string := NilZero.string_of_int (Z.to_int n).

Fixpoint stringify (v : json) : string :=
  match v with
  | JNull => "null"
  | JBool true => "true"
  | JBool false => "false"
  | JNum n => decimal n
  | JStr s => quote s
  | JArr items => ("[" ++ join "," (map stringify items) ++ "]")%string
  | JObj props =>
      ("{" ++ join "," (map (fun '(k, x) => quote k ++ ":" ++ stringify x) props)
           ++ "}")%string
  end.

Definition json_opt (o : option string) : json :=
  match o with Some s => JStr s | None => JNull end.

(** ** Reading a [jsonb] column

    PostgreSQL keeps a [jsonb] object with its keys unique (the last value
    given for a key stays) and ordered by length, then bytewise.
    [JSON.parse] of that text enumerates the keys that are array indices
    first, in ascending order, then the others in the order of the text. *)

Definition key_before (a b : string) : bool :=
  (String.length a <? String.length b)%nat
  || ((String.length a =? String.length b)%nat && String.ltb a b).

Fixpoint jsonb_insert (k : string) (v : json) (sorted : list (string * json))
  : list (string * json) :=
  match sorted with
  | [] => [(k, v)]
  | (k', v') :: rest =>
      if String.eqb k k' then (k, v) :: rest
      else if key_before k k' then (k, v) :: sorted
      else (k', v') :: jsonb_insert k v rest
  end.

Definition jsonb_object (props : list (string * json)) : list (string * json) :=
  fold_left (fun sorted '(k, v) => jsonb_insert k v sorted) props [].

Fixpoint decimal_value (acc : Z) (s : string) : option Z :=
  match s with
  | EmptyString => Some acc
  | String c rest =>
      let n := Z.of_N (N_of_ascii c) in
      if (48 <=? n) && (n <=? 57) then decimal_value (10 * acc + (n - 48)) rest
      else None
  end.

(** An array index: the canonical decimal form of an integer below
    [2^32 - 1]. *)
Definition is_array_index (k : string) : bool :=
  match k with
  | EmptyString => false
  | String c rest =>
      match decimal_value 0 k with
      | Some n =>
          (n <=? 4294967294)
          && match rest with
             | EmptyString => true
             | _ => negb (Z.of_N (N_of_ascii c) =? 48)
             end
      | None => false
      end
  end.

Definition enumerate (props : list (string * json)) : list (string * json) :=
  List.filter (fun p => is_array_index (fst p)) props
  ++ List.filter (fun p => negb (is_array_index (fst p))) props.

(** The value [supabase-js] hands over for a [jsonb] column that was sent
    as [v]. *)
Fixpoint read_jsonb (v : json) : json :=
  match v with
  | JArr items => JArr (map read_jsonb items)
  | JObj props =>
      JObj (enumerate (jsonb_object (map (fun '(k, x) => (k, read_jsonb x)) props)))
  | _ => v
  end.

(** ** Exceptions

    A call returns a value or throws; [Throws] carries the [message] of the
    error, which is all the [catch] block of a handler reports. *)

Inductive outcome (A : Type) : Type :=
| Returns (value : A)
| Throws (message : string).

Arguments Returns {A} value.
Arguments Throws {A} message.

Definition bind {A B : Type} (x : outcome A) (k : A -> outcome B) : outcome B :=
  match x with
  | Returns a => k a
  | Throws message => Throws message
  end.

Notation "'let*' x ':=' e 'in' k" := (bind e (fun x => k))
  (at level 10, x name, e at level 100, k at level 200).

(** [items.map(f)] for an [f] that may throw: left to right, up to the first
    exception. *)
Fixpoint traverse {A B : Type} (f : A -> outcome B) (items : list A)
  : outcome (list B) :=
  match items with
  | [] => Returns []
  | x :: rest =>
      let* y := f x in
      let* ys := traverse f rest in
      Returns (y :: ys)
  end.

(** ** The runtime's [crypto.subtle]

    [await crypto.subtle.digest('SHA-256', bytes)] is [Sha256.digest].  The
    audit function also calls [crypto.subtle.digestSync], which the Web
    Crypto interface does not define and which no import of the file adds.
    What that call does is the runtime's to say: [digestSync] is [None] for
    an object without such a member, and calling it throws a [TypeError];
    it is [Some f] for an object that has one, [f] taking the algorithm name
    and the bytes and returning the bytes of the digest. *)
Record SubtleCrypto := { digestSync : option (string -> list Z -> list Z) }.

(** The Web Crypto interface, which is what Deno and the edge runtime
    provide. *)
Definition web_crypto : SubtleCrypto := {| digestSync := None |}.

(** The message of the [TypeError] raised by calling the missing member. *)
Definition not_a_function : string := "crypto.subtle.digestSync is not a function".

(** ** Merkle tree over a batch ([class MerkleTree]) *)

Module MerkleTree.

Record t := Build { leaves : list string }.

(** [Array.from(new Uint8Array(crypto.subtle.digestSync('SHA-256',
    encoder.encode(data)))).map(b => b.toString(16).padStart(2, '0')).join('')] *)
Definition hash (subtle : SubtleCrypto) (data : string) : outcome string :=
  match digestSync subtle with
  | Some f => Returns (hex_of_bytes (f "SHA-256"%string (bytes_of_string data)))
  | None => Throws not_a_function
  end.

Definition pairwiseHash (subtle : SubtleCrypto) (left right : string)
  : outcome string :=
  hash subtle (left ++ right).

(** [constructor(data)]: every datum is hashed into a leaf. *)
Definition make (subtle : SubtleCrypto) (data : list string) : outcome t :=
  let* hashed := traverse (hash subtle) data in
  Returns (Build hashed).

(** One pass of the [for (i = 0; i < level.length; i += 2)] loop. *)
Fixpoint nextLevel (subtle : SubtleCrypto) (level : list string)
  : outcome (list string) :=
  match level with
  | l :: r :: rest =>
      let* parent := pairwiseHash subtle l r in
      let* more := nextLevel subtle rest in
      Returns (parent :: more)
  | [l] => Returns [l]
  | [] => Returns []
  end.

(** The [while (level.length > 1)] loop, at most [fuel] iterations. *)
Fixpoint reduce (subtle : SubtleCrypto) (fuel : nat) (level : list string)
  : outcome (list string) :=
  match fuel with
  | O => Returns level
  | S fuel' =>
      if (1 <? length level)%nat then
        let* next := nextLevel subtle level in
        reduce subtle fuel' next
      else Returns level
  end.

Definition getRoot (subtle : SubtleCrypto) (tree : t) : outcome string :=
  match leaves tree with
  | [] => Returns EmptyString
  | [leaf] => Returns leaf
  | level =>
      let* top := reduce subtle (length level) level in
      Returns (nth 0 top EmptyString)
  end.

End MerkleTree.

(** ** Audit events and the hash chain ([createAuditChain]) *)

Inductive ResourceType := transcript_r | institution_r | student_r | auth_r | system_r.
Inductive Severity := low | medium | high | critical.

Definition resourceType_string (r : ResourceType) : string :=
  match r with
  | transcript_r => "transcript" | institution_r => "institution"
  | student_r => "student" | auth_r => "auth" | system_r => "system"
  end.

Definition severity_string (s : Severity) : string :=
  match s with
  | low => "low" | medium => "medium" | high => "high" | critical => "critical"
  end.

Record AuditEvent := {
  userId : option string;
  action : string;
  resourceType : ResourceType;
  resourceId : option string;
  details : json;
  timestamp : Z;
  ipAddress : option string;
  userAgent : option string;
  severity : Severity
}.

Definition event_json (e : AuditEvent) : json :=
  JObj [ ("userId", json_opt (userId e));
         ("action", JStr (action e));
         ("resourceType", JStr (resourceType_string (resourceType e)));
         ("resourceId", json_opt (resourceId e));
         ("details", details e);
         ("timestamp", JNum (timestamp e));
         ("ipAddress", json_opt (ipAddress e));
         ("userAgent", json_opt (userAgent e));
         ("severity", JStr (severity_string (severity e))) ]%string.

Record AuditChain := {
  previousHash : string;
  currentHash : string;
  merkleRoot : string;
  chain_timestamp : Z
}.

(** ['0'.repeat(64)] *)
Definition genesis_hash : string :=
  "0000000000000000000000000000000000000000000000000000000000000000".

(** [crypto.subtle.digestSync('SHA-256', encoder.encode(JSON.stringify(event)))],
    rendered in hexadecimal. *)
Definition eventHash (subtle : SubtleCrypto) (e : AuditEvent) : outcome string :=
  match digestSync subtle with
  | Some f =>
      Returns (hex_of_bytes
                 (f "SHA-256"%string (bytes_of_string (stringify (event_json e)))))
  | None => Throws not_a_function
  end.

Definition blockData (previous root : string) (now : Z) (count : nat) : json :=
  JObj [ ("previousHash", JStr previous);
         ("merkleRoot", JStr root);
         ("timestamp", JNum now);
         ("eventCount", JNum (Z.of_nat count)) ]%string.

(** [now] is the reading of [Date.now()] taken while the block is built,
    once the Merkle root is there; the block itself is hashed with
    [await crypto.subtle.digest]. *)
Definition createAuditChain (subtle : SubtleCrypto) (auditEvents : list AuditEvent)
    (previous : string) (now : Z) : outcome AuditChain :=
  let* eventHashes := traverse (eventHash subtle) auditEvents in
  let* merkleTree := MerkleTree.make subtle eventHashes in
  let* root := MerkleTree.getRoot subtle merkleTree in
  Returns
    {| previousHash := previous;
       currentHash :=
         sha256_hex (stringify (blockData previous root now (length auditEvents)));
       merkleRoot := root;
       chain_timestamp := now |}.

Record BatchMetadata := {
  eventCount : Z;
  firstEventTime : Z;
  lastEventTime : Z
}.

Definition metadata_json (m : BatchMetadata) : json :=
  JObj [ ("eventCount", JNum (eventCount m));
         ("firstEventTime", JNum (firstEventTime m));
         ("lastEventTime", JNum (lastEventTime m)) ]%string.

(** The anchoring contract, when configured: [recordAuditBatch(merkleRoot,
    timestamp, metadata)] answers a transaction hash or throws. *)
Definition Blockchain := string -> Z -> string -> option string.

(** [recordAuditBatch]: [None] stands for the exception it rethrows. *)
Definition recordAuditBatch (blockchain : option Blockchain) (chain : AuditChain)
    (metadata : BatchMetadata) : option string :=
  match blockchain with
  | None =>
      let batchData :=
        JObj [ ("previousHash", JStr (previousHash chain));
               ("currentHash", JStr (currentHash chain));
               ("merkleRoot", JStr (merkleRoot chain));
               ("timestamp", JNum (chain_timestamp chain));
               ("metadata", metadata_json metadata) ]%string in
      Some (sha256_hex (stringify batchData))
  | Some contract =>
      contract (merkleRoot chain) (chain_timestamp chain)
               (stringify (metadata_json metadata))
  end.

(** ** The relational store

    A table is the list of its rows in insertion order; [verification_rate_limits]
    carries a unique constraint on [ip_address] and is a finite map keyed by
    it.  Columns of type [timestamptz] count microseconds, JavaScript dates
    count milliseconds.  A row carries the columns the handlers read.  The
    column [updated_at] of [students] is none of them: the trigger
    [update_students_updated_at] sets it to the database's [now()] on every
    update, whatever the statement sends.  A [jsonb] column is kept as it was
    sent and read back in [jsonb] order ([read_jsonb]). *)

Definition timestamptz_of_ms (ms : Z) : Z := 1000 * ms.
Definition ms_of_timestamptz (ts : Z) : Z := ts / 1000.

Record Institution := {
  inst_id : string;
  inst_user_id : string;
  inst_name : string;
  inst_email : string
}.

Record Student := {
  st_id : string;
  full_name : string;
  email : string;
  institution_id : string;
  verification_count : Z;
  verification_limit : Z
}.

Record Transcript := {
  tr_id : string;
  tr_student_id : string;
  tr_verification_id : string;
  file_url : option string;
  file_hash : option string;
  issued_at : Z;
  tr_created_at : Z;
  verified : bool;
  tr_blockchain_tx : option string
}.

Record VerificationAttempt := {
  va_student_id : option string;
  va_verification_id : string;
  attempted_at : Z;
  success : bool;
  va_ip_address : option string;
  va_user_agent : option string
}.

Record RateLimit := {
  rl_verification_id : option string;
  attempt_count : Z;
  first_attempt_at : Z;
  last_attempt_at : Z;
  blocked_until : option Z;
  rl_created_at : Z
}.

Record AuditLog := {
  log_id : nat;
  log_user_id : option string;
  log_action : string;
  log_resource_type : ResourceType;
  log_resource_id : option string;
  log_details : json;
  log_severity : Severity;
  encrypted_data : option string;
  log_blockchain_tx : option string;
  log_ip_address : option string;
  log_user_agent : option string;
  log_created_at : Z
}.

Record AuditBatch := {
  batch_id : string;
  previous_hash : string;
  current_hash : string;
  merkle_root : string;
  event_count : Z;
  batch_metadata : BatchMetadata;
  batch_blockchain_tx : option string;
  batch_created_at : Z
}.

Record db := {
  sessions : gmap string string;
  institutions : list Institution;
  students : list Student;
  transcripts : list Transcript;
  verification_attempts : list VerificationAttempt;
  verification_rate_limits : gmap string RateLimit;
  audit_logs : list AuditLog;
  audit_batches : list AuditBatch
}.

Definition set_students (f : list Student -> list Student) (s : db) : db :=
  {| sessions := sessions s; institutions := institutions s;
     students := f (students s); transcripts := transcripts s;
     verification_attempts := verification_attempts s;
     verification_rate_limits := verification_rate_limits s;
     audit_logs := audit_logs s; audit_batches := audit_batches s |}.

Definition set_verification_attempts
    (f : list VerificationAttempt -> list VerificationAttempt) (s : db) : db :=
  {| sessions := sessions s; institutions := institutions s;
     students := students s; transcripts := transcripts s;
     verification_attempts := f (verification_attempts s);
     verification_rate_limits := verification_rate_limits s;
     audit_logs := audit_logs s; audit_batches := audit_batches s |}.

Definition set_verification_rate_limits (m : gmap string RateLimit) (s : db) : db :=
  {| sessions := sessions s; institutions := institutions s;
     students := students s; transcripts := transcripts s;
     verification_attempts := verification_attempts s;
     verification_rate_limits := m;
     audit_logs := audit_logs s; audit_batches := audit_batches s |}.

Definition set_audit_logs (f : list AuditLog -> list AuditLog) (s : db) : db :=
  {| sessions := sessions s; institutions := institutions s;
     students := students s; transcripts := transcripts s;
     verification_attempts := verification_attempts s;
     verification_rate_limits := verification_rate_limits s;
     audit_logs := f (audit_logs s); audit_batches := audit_batches s |}.

Definition set_audit_batches (f : list AuditBatch -> list AuditBatch) (s : db) : db :=
  {| sessions := sessions s; institutions := institutions s;
     students := students s; transcripts := transcripts s;
     verification_attempts := verification_attempts s;
     verification_rate_limits := verification_rate_limits s;
     audit_logs := audit_logs s; audit_batches := f (audit_batches s) |}.

(** [.single()]: exactly one row, anything else is an error. *)
Definition single {A} (rows : list A) : option A :=
  match rows with
  | [row] => Some row
  | _ => None
  end.

(** [.maybeSingle()]: no row is [null], several rows are an error. *)
Definition maybeSingle {A} (rows : list A) : option (option A) :=
  match rows with
  | [] => Some None
  | [row] => Some (Some row)
  | _ => None
  end.

(** An [INSERT] that the store may refuse ([fails]). *)
Definition insert_row {A} (fails : bool) (row : A) (table : list A) : list A :=
  if fails then table else table ++ [row].

(** JavaScript [x || d] on a number. *)
Definition or_default (x d : Z) : Z := if x =? 0 then d else x.

(** JavaScript [a || b] on strings that may be absent. *)
Definition or_string (a : option string) (b : option string) : option string :=
  match a with
  | Some EmptyString | None => b
  | Some _ => a
  end.

(** ** Edge function [verify-with-limit] *)

Module VerifyWithLimit.

Record Body := {
  verificationId : string;
  ipAddress : option string;
  userAgent : option string
}.

(** [body = None]: [req.json()] throws. *)
Record Request := { is_options : bool; body : option Body }.

(** The clock readings of one call that reach the store, in milliseconds:
    the start of the five-second window and the [attempted_at] of the attempt
    row. *)
Record Clock := { at_check : Z; at_insert : Z }.

(** Which database calls of the handler answer with an error. *)
Record Faults := {
  recent_query_fails : bool;
  transcript_query_fails : bool;
  count_update_fails : bool;
  attempt_insert_fails : bool
}.

Record Verification := {
  student_name : string;
  student_email : string;
  institution_name : string;
  institution_email : string;
  transcript : Transcript;
  verificationCount : Z;
  verificationLimit : Z;
  remainingVerifications : Z
}.

Inductive Response :=
| Preflight
| MissingId
| AlreadyCompleted
| InvalidId
| LimitExceeded (count limit : Z)
| Verified (v : Verification)
| InternalError.

Definition status (r : Response) : Z :=
  match r with
  | Preflight | Verified _ => 200
  | MissingId => 400
  | AlreadyCompleted | LimitExceeded _ _ => 429
  | InvalidId => 404
  | InternalError => 500
  end.

(** [.eq('verification_id', vid).gte('attempted_at', now - 5000)] *)
Definition recent (vid : string) (now : Z) (a : VerificationAttempt) : Prop :=
  va_verification_id a = vid /\ timestamptz_of_ms (now - 5000) <= attempted_at a.

#[global] Instance recent_dec vid now a : Decision (recent vid now a).
Proof. unfold recent. apply _. Defined.

(** Attempts on [vid] from the last five seconds, [.limit(5)]: the first
    five in table order. *)
Definition recentAttempts (s : db) (vid : string) (now : Z)
  : list VerificationAttempt :=
  take 5 (filter (recent vid now) (verification_attempts s)).

Definition recentSuccess (fl : Faults) (s : db) (vid : string) (now : Z)
  : option VerificationAttempt :=
  if recent_query_fails fl then None
  else List.find success (recentAttempts s vid now).

(** [students!inner(..., institutions!inner(...))] for one transcript. *)
Definition joined (s : db) (tr : Transcript)
  : list (Transcript * Student * Institution) :=
  flat_map (fun st =>
              map (fun inst => (tr, st, inst))
                  (filter (fun i => inst_id i = institution_id st) (institutions s)))
           (filter (fun st => st_id st = tr_student_id tr) (students s)).

Definition findTranscript (fl : Faults) (s : db) (vid : string)
  : option (Transcript * Student * Institution) :=
  if transcript_query_fails fl then None
  else single (flat_map (joined s)
                 (filter (fun tr => tr_verification_id tr = vid) (transcripts s))).

Definition log_attempt (fl : Faults) (row : VerificationAttempt) (s : db) : db :=
  set_verification_attempts (insert_row (attempt_insert_fails fl) row) s.

Definition attempt_row (b : Body) (student : option string) (ok : bool) (clk : Clock)
  : VerificationAttempt :=
  {| va_student_id := student;
     va_verification_id := verificationId b;
     attempted_at := timestamptz_of_ms (at_insert clk);
     success := ok;
     va_ip_address := ipAddress b;
     va_user_agent := userAgent b |}.

Definition with_count (count : Z) (st : Student) : Student :=
  {| st_id := st_id st; full_name := full_name st; email := email st;
     institution_id := institution_id st;
     verification_count := count;
     verification_limit := verification_limit st |}.

(** [update({verification_count, updated_at}).eq('id', id)]; the
    [updated_at] it sends is replaced by the trigger. *)
Definition update_count (id : string) (count : Z) (rows : list Student)
  : list Student :=
  map (fun st => if decide (st_id st = id) then with_count count st else st) rows.

Definition serve (s : db) (req : Request) (clk : Clock) (fl : Faults)
  : Response * db :=
  if is_options req then (Preflight, s)
  else
    match body req with
    | None => (InternalError, s)
    | Some b =>
        let vid := verificationId b in
        if decide (vid = EmptyString) then (MissingId, s)
        else
          match recentSuccess fl s vid (at_check clk) with
          | Some _ => (AlreadyCompleted, s)
          | None =>
              match findTranscript fl s vid with
              | None => (InvalidId, log_attempt fl (attempt_row b None false clk) s)
              | Some (tr, st, inst) =>
                  let count := or_default (verification_count st) 0 in
                  let limit := or_default (verification_limit st) 5 in
                  if limit <=? count then
                    (LimitExceeded count limit,
                     log_attempt fl (attempt_row b (Some (st_id st)) false clk) s)
                  else
                    let newCount := count + 1 in
                    let s1 :=
                      if count_update_fails fl then s
                      else set_students (update_count (st_id st) newCount) s in
                    let s2 :=
                      log_attempt fl (attempt_row b (Some (st_id st)) true clk) s1 in
                    (Verified
                       {| student_name := full_name st;
                          student_email := email st;
                          institution_name := inst_name inst;
                          institution_email := inst_email inst;
                          transcript := tr;
                          verificationCount := count + 1;
                          verificationLimit := limit;
                          remainingVerifications := Z.max 0 (limit - (count + 1)) |},
                     s2)
              end
          end
    end.

End VerifyWithLimit.

(** ** Edge function [reset-verification-count] *)

Module ResetVerificationCount.

(** [body] is the [studentId] of the parsed body, [None] when [req.json()]
    throws. *)
Record Request := {
  is_options : bool;
  authorization : option string;
  body : option string
}.

Record Faults := {
  institution_query_fails : bool;
  student_query_fails : bool;
  count_update_fails : bool;
  attempt_insert_fails : bool
}.

Inductive Response :=
| Preflight
| MissingAuthorization
| MissingStudentId
| Unauthorized
| InstitutionNotFound
| StudentNotFound
| ResetFailed
| NoStudentUpdated
| ResetDone (id name mail : string) (verificationCount verificationLimit : Z)
| InternalError.

Definition status (r : Response) : Z :=
  match r with
  | Preflight | ResetDone _ _ _ _ _ => 200
  | MissingStudentId => 400
  | MissingAuthorization | Unauthorized => 401
  | InstitutionNotFound | StudentNotFound | NoStudentUpdated => 404
  | ResetFailed | InternalError => 500
  end.

Definition RESET_BY_INSTITUTION : string := "RESET_BY_INSTITUTION".

Definition owned (studentId institutionId : string) (st : Student) : Prop :=
  st_id st = studentId /\ institution_id st = institutionId.

#[global] Instance owned_dec studentId institutionId st :
  Decision (owned studentId institutionId st).
Proof. unfold owned. apply _. Defined.

Definition zero_count (st : Student) : Student :=
  {| st_id := st_id st; full_name := full_name st; email := email st;
     institution_id := institution_id st;
     verification_count := 0;
     verification_limit := verification_limit st |}.

(** [update({verification_count: 0}).eq('id', ..).eq('institution_id', ..)] *)
Definition reset_count (studentId institutionId : string) (rows : list Student)
  : list Student :=
  map (fun st => if decide (owned studentId institutionId st)
                 then zero_count st else st) rows.

Definition reset_row (studentId institutionId : string) (now : Z)
  : VerificationAttempt :=
  {| va_student_id := Some studentId;
     va_verification_id := RESET_BY_INSTITUTION;
     attempted_at := timestamptz_of_ms now;
     success := true;
     va_ip_address := None;
     va_user_agent := Some ("Reset by institution " ++ institutionId)%string |}.

Definition serve (s : db) (req : Request) (now : Z) (fl : Faults)
  : Response * db :=
  if is_options req then (Preflight, s)
  else
    match or_string (authorization req) None with
    | None => (MissingAuthorization, s)
    | Some authHeader =>
        match body req with
        | None => (InternalError, s)
        | Some studentId =>
            if decide (studentId = EmptyString) then (MissingStudentId, s)
            else
              match sessions s !! authHeader with
              | None => (Unauthorized, s)
              | Some user =>
                  match
                    (if institution_query_fails fl then None
                     else single (filter (fun i => inst_user_id i = user)
                                         (institutions s)))
                  with
                  | None => (InstitutionNotFound, s)
                  | Some institution =>
                      let mine := owned studentId (inst_id institution) in
                      match
                        (if student_query_fails fl then None
                         else single (filter mine (students s)))
                      with
                      | None => (StudentNotFound, s)
                      | Some student =>
                          if count_update_fails fl then (ResetFailed, s)
                          else
                            match filter mine (students s) with
                            | [] => (NoStudentUpdated, s)
                            | _ =>
                                let s1 :=
                                  set_students
                                    (reset_count studentId (inst_id institution)) s in
                                let s2 :=
                                  set_verification_attempts
                                    (insert_row (attempt_insert_fails fl)
                                       (reset_row studentId (inst_id institution) now))
                                    s1 in
                                (ResetDone (st_id student) (full_name student)
                                   (email student) 0 (verification_limit student),
                                 s2)
                            end
                      end
                  end
              end
        end
    end.

End ResetVerificationCount.

(** ** SQL function [check_verification_rate_limit] *)

Module RateLimiter.

(** [INTERVAL '1 hour'] *)
Definition hour : Z := 3600000000.

Definition threshold : Z := 20.

(** A row of the key with [blocked_until > now()]. *)
Definition blocked (row : option RateLimit) (now : Z) : bool :=
  match row with
  | Some r => match blocked_until r with
              | Some until => now <? until
              | None => false
              end
  | None => false
  end.

(** [COALESCE(SUM(attempt_count), 0)] over the rows of the key with
    [last_attempt_at > window_start]. *)
Definition current_attempts (row : option RateLimit) (window_start : Z) : Z :=
  match row with
  | Some r => if window_start <? last_attempt_at r then attempt_count r else 0
  | None => 0
  end.

Definition block_upsert (row : option RateLimit) (vid : option string) (now : Z)
  : RateLimit :=
  match row with
  | None =>
      {| rl_verification_id := vid; attempt_count := 1;
         first_attempt_at := now; last_attempt_at := now;
         blocked_until := Some (now + hour); rl_created_at := now |}
  | Some r =>
      {| rl_verification_id := rl_verification_id r;
         attempt_count := attempt_count r + 1;
         first_attempt_at := first_attempt_at r; last_attempt_at := now;
         blocked_until := Some (now + hour); rl_created_at := rl_created_at r |}
  end.

Definition attempt_upsert (row : option RateLimit) (vid : option string) (now : Z)
  : RateLimit :=
  match row with
  | None =>
      {| rl_verification_id := vid; attempt_count := 1;
         first_attempt_at := now; last_attempt_at := now;
         blocked_until := None; rl_created_at := now |}
  | Some r =>
      {| rl_verification_id :=
           match vid with Some v => Some v | None => rl_verification_id r end;
         attempt_count := attempt_count r + 1;
         first_attempt_at := first_attempt_at r; last_attempt_at := now;
         blocked_until := blocked_until r; rl_created_at := rl_created_at r |}
  end.

(** The function body; [now] is the transaction's [now()].  The result is
    the returned boolean and the table it leaves. *)
Definition check_verification_rate_limit (limits : gmap string RateLimit)
    (p_ip_address : string) (p_verification_id : option string) (now : Z)
  : bool * gmap string RateLimit :=
  let window_start := now - hour in
  let row := limits !! p_ip_address in
  if blocked row now then (false, limits)
  else if threshold <=? current_attempts row window_start then
    (false, <[p_ip_address := block_upsert row p_verification_id now]> limits)
  else
    (true, <[p_ip_address := attempt_upsert row p_verification_id now]> limits).

(** A run of calls from one key: the clock reading of each call, in order.
    The answers come back in the same order. *)
Fixpoint calls (limits : gmap string RateLimit) (ip : string)
    (vid : option string) (times : list Z) : list bool * gmap string RateLimit :=
  match times with
  | [] => ([], limits)
  | now :: later =>
      let '(ok, limits1) := check_verification_rate_limit limits ip vid now in
      let '(oks, limits2) := calls limits1 ip vid later in
      (ok :: oks, limits2)
  end.

End RateLimiter.

(** ** Edge function [verify-transcript] *)

Module VerifyTranscript.

(** [verification_id = None]: absent or not a string. *)
Record Body := { verification_id : option string; ip_address : option string }.

Record Request := {
  is_options : bool;
  body : option Body;
  x_forwarded_for : option string;
  x_real_ip : option string
}.

(** [now()] of the rate limit transaction and of the audit insert. *)
Record Clock := { limit_now : Z; audit_now : Z }.

Record Faults := {
  rate_limit_fails : bool;
  transcript_query_fails : bool;
  student_query_fails : bool;
  audit_insert_fails : bool
}.

Record Result := {
  is_verified : bool;
  verificationId : string;
  studentName : string;
  institution : string;
  issueDate : Z;
  createdDate : Z;
  blockchainTx : string;
  fileHash : string;
  transcriptId : string
}.

Inductive Response :=
| Preflight
| InvalidFormat
| InvalidPattern
| RateLimited
| DatabaseError
| NotFound
| Found (r : Result)
| Failed.

Definition status (r : Response) : Z :=
  match r with
  | Preflight | NotFound | Found _ => 200
  | InvalidFormat | InvalidPattern => 400
  | RateLimited => 429
  | DatabaseError | Failed => 500
  end.

Definition code (c : ascii) : Z := Z.of_N (N_of_ascii c).

Definition bytes (l : list Z) : string :=
  fold_right (fun b acc => String (ascii_of_N (Z.to_N b)) acc) EmptyString l.

(** UTF-8 of the code points [String.prototype.trim] removes. *)
Definition white_space : list string :=
  map bytes
    [ [9]; [10]; [11]; [12]; [13]; [32]; [0xC2; 0xA0]; [0xE1; 0x9A; 0x80];
      [0xE2; 0x80; 0x80]; [0xE2; 0x80; 0x81]; [0xE2; 0x80; 0x82];
      [0xE2; 0x80; 0x83]; [0xE2; 0x80; 0x84]; [0xE2; 0x80; 0x85];
      [0xE2; 0x80; 0x86]; [0xE2; 0x80; 0x87]; [0xE2; 0x80; 0x88];
      [0xE2; 0x80; 0x89]; [0xE2; 0x80; 0x8A]; [0xE2; 0x80; 0xA8];
      [0xE2; 0x80; 0xA9]; [0xE2; 0x80; 0xAF]; [0xE2; 0x81; 0x9F];
      [0xE3; 0x80; 0x80]; [0xEF; 0xBB; 0xBF] ].

Fixpoint strip (pre s : string) : option string :=
  match pre, s with
  | EmptyString, _ => Some s
  | String a pre', String b s' => if Ascii.eqb a b then strip pre' s' else None
  | _, EmptyString => None
  end.

Fixpoint strip_any (pres : list string) (s : string) : option string :=
  match pres with
  | [] => None
  | pre :: rest => match strip pre s with
                   | Some s' => Some s'
                   | None => strip_any rest s
                   end
  end.

Fixpoint trim_with (fuel : nat) (ws : list string) (s : string) : string :=
  match fuel with
  | O => s
  | S fuel' => match strip_any ws s with
               | Some s' => trim_with fuel' ws s'
               | None => s
               end
  end.

Fixpoint rev_string (s acc : string) : string :=
  match s with
  | EmptyString => acc
  | String c s' => rev_string s' (String c acc)
  end.

Definition reverse (s : string) : string := rev_string s EmptyString.

Definition trimStart (s : string) : string :=
  trim_with (String.length s) white_space s.

Definition trimEnd (s : string) : string :=
  reverse (trim_with (String.length s) (map reverse white_space) (reverse s)).

Definition trim (s : string) : string := trimEnd (trimStart s).

Definition is_digit (c : ascii) : bool := (48 <=? code c) && (code c <=? 57).

Definition is_alnum (c : ascii) : bool :=
  is_digit c || ((97 <=? code c) && (code c <=? 122))
             || ((65 <=? code c) && (code c <=? 90)).

Fixpoint skip_digits (s : string) : string :=
  match s with
  | String c s' => if is_digit c then skip_digits s' else s
  | EmptyString => s
  end.

Fixpoint all_alnum (s : string) : bool :=
  match s with
  | String c s' => is_alnum c && all_alnum s'
  | EmptyString => true
  end.

(** [/^VT-\d+-[a-z0-9]+$/i.test(s)] *)
Definition verificationIdRegex (s : string) : bool :=
  match s with
  | String v (String t (String dash (String d rest))) =>
      ((code v =? 86) || (code v =? 118)) && ((code t =? 84) || (code t =? 116))
      && (code dash =? 45) && is_digit d
      && match skip_digits rest with
         | String dash2 (String a tail) =>
             (code dash2 =? 45) && is_alnum a && all_alnum tail
         | _ => false
         end
  | _ => false
  end.

(** [header.split(',')[0]] *)
Fixpoint first_field (s : string) : string :=
  match s with
  | EmptyString => EmptyString
  | String c s' => if code c =? 44 then EmptyString else String c (first_field s')
  end.

Definition clientIP (b : Body) (req : Request) : string :=
  match or_string (ip_address b)
          (or_string (first_field <$> x_forwarded_for req)
             (or_string (x_real_ip req) (Some "unknown"%string))) with
  | Some ip => ip
  | None => "unknown"
  end.

Definition fresh_log_id (logs : list AuditLog) : nat :=
  S (fold_right Nat.max O (map log_id logs)).

(** SQL function [log_audit_event], called with the service role:
    [auth.uid()] is null. *)
Definition log_audit_event (p_action : string) (p_resource_type : ResourceType)
    (p_resource_id : option string) (p_details : json) (now : Z)
    (logs : list AuditLog) : list AuditLog :=
  logs ++ [ {| log_id := fresh_log_id logs; log_user_id := None;
               log_action := p_action; log_resource_type := p_resource_type;
               log_resource_id := p_resource_id; log_details := p_details;
               log_severity := low; encrypted_data := None;
               log_blockchain_tx := None; log_ip_address := None;
               log_user_agent := None; log_created_at := now |} ].

Definition non_empty (o : option string) (d : string) : string :=
  match or_string o None with Some x => x | None => d end.

Definition serve (s : db) (req : Request) (clk : Clock) (fl : Faults)
  : Response * db :=
  if is_options req then (Preflight, s)
  else
    match body req with
    | None => (Failed, s)
    | Some b =>
        match or_string (verification_id b) None with
        | None => (InvalidFormat, s)
        | Some vid =>
            if negb (verificationIdRegex (trim vid)) then (InvalidPattern, s)
            else
              let ip := clientIP b req in
              let '(rateLimitCheck, s1) :=
                if rate_limit_fails fl then (false, s)
                else
                  let '(ok, limits) :=
                    RateLimiter.check_verification_rate_limit
                      (verification_rate_limits s) ip (Some vid) (limit_now clk) in
                  (ok, set_verification_rate_limits limits s) in
              if negb rateLimitCheck then (RateLimited, s1)
              else
                match
                  (if transcript_query_fails fl then None
                   else maybeSingle
                          (filter (fun tr => tr_verification_id tr = trim vid)
                                  (transcripts s1)))
                with
                | None => (DatabaseError, s1)
                | Some None => (NotFound, s1)
                | Some (Some tr) =>
                    let student :=
                      if student_query_fails fl then None
                      else
                        match maybeSingle
                                (filter (fun st => st_id st = tr_student_id tr)
                                        (students s1)) with
                        | Some (Some st) => Some st
                        | _ => None
                        end in
                    let inst :=
                      match student with
                      | Some st => single (filter (fun i => inst_id i = institution_id st)
                                                  (institutions s1))
                      | None => None
                      end in
                    let s2 :=
                      if audit_insert_fails fl then s1
                      else
                        set_audit_logs
                          (log_audit_event "transcript_verification" transcript_r
                             (Some (tr_id tr))
                             (JObj [ ("verification_id", JStr vid);
                                     ("ip_address", JStr ip);
                                     ("verified_status", JBool (verified tr)) ]%string)
                             (audit_now clk))
                          s1 in
                    (Found
                       {| is_verified := verified tr;
                          verificationId := tr_verification_id tr;
                          studentName := non_empty (full_name <$> student) "Unknown Student";
                          institution := non_empty (inst_name <$> inst) "Unknown Institution";
                          issueDate := issued_at tr;
                          createdDate := tr_created_at tr;
                          blockchainTx := non_empty (tr_blockchain_tx tr) "Pending";
                          fileHash := non_empty (file_hash tr) "Processing";
                          transcriptId := tr_id tr |},
                     s2)
                end
        end
    end.

End VerifyTranscript.

(** ** Edge function [blockchain-audit] *)

Module BlockchainAudit.

(** The parsed body: its [action], and for [log_event] its [events]. *)
Inductive Body :=
| log_event (events : AuditEvent)
| process_batch
| other_action.

Record Request := {
  is_options : bool;
  authorization : option string;
  body : option Body;
  x_forwarded_for : option string;
  x_real_ip : option string;
  user_agent : option string
}.

(** What one call draws from outside the store: the reading of
    [Date.now()], the ciphertext the encryption layer returns (it draws a
    random salt and nonce), the anchoring contract if one is configured, and
    the [crypto.subtle] of the runtime. *)
Record World := {
  now : Z;
  ciphertext : string;
  blockchain : option Blockchain;
  subtle : SubtleCrypto
}.

Record Faults := {
  log_insert_fails : bool;
  pending_query_fails : bool;
  last_batch_query_fails : bool;
  batch_insert_fails : bool;
  logs_update_fails : bool
}.

(** [Failure] is the 400 answer of the [catch] block with the message of the
    error; for a body that does not parse and for an error of the contract
    the message is a fixed text here. *)
Inductive Response :=
| Preflight
| MissingAuthorization
| EventRecorded (auditId : string)
| NoPending
| BatchProcessed (batchId : string) (processedCount : Z) (root current : string)
| Failure (message : string).

Definition status (r : Response) : Z :=
  match r with
  | Preflight | EventRecorded _ | NoPending | BatchProcessed _ _ _ _ => 200
  | MissingAuthorization => 401
  | Failure _ => 400
  end.

Definition header_or_unknown (a b : option string) : option string :=
  or_string a (or_string b (Some "unknown"%string)).

Definition logEvent (s : db) (req : Request) (w : World) (fl : Faults)
    (user : string) (events : AuditEvent) : Response * db :=
  let ip := header_or_unknown (x_forwarded_for req) (x_real_ip req) in
  let ua := header_or_unknown (user_agent req) None in
  let row :=
    {| log_id := VerifyTranscript.fresh_log_id (audit_logs s);
       log_user_id := Some user;
       log_action := action events;
       log_resource_type := resourceType events;
       log_resource_id := resourceId events;
       log_details := details events;
       log_severity := severity events;
       encrypted_data := Some (ciphertext w);
       log_blockchain_tx := None;
       log_ip_address := ip;
       log_user_agent := ua;
       log_created_at := timestamptz_of_ms (now w) |} in
  (EventRecorded (decimal (now w)),
   set_audit_logs (insert_row (log_insert_fails fl) row) s).

(** [.order('created_at', { ascending: true })], ties in table order. *)
Fixpoint insert_by_created_at (row : AuditLog) (sorted : list AuditLog)
  : list AuditLog :=
  match sorted with
  | [] => [row]
  | x :: rest =>
      if log_created_at row <=? log_created_at x then row :: sorted
      else x :: insert_by_created_at row rest
  end.

Definition order_by_created_at (rows : list AuditLog) : list AuditLog :=
  fold_right insert_by_created_at [] rows.

Definition pending (log : AuditLog) : Prop := log_blockchain_tx log = None.

#[global] Instance pending_dec log : Decision (pending log).
Proof. unfold pending. apply _. Defined.

Definition pendingLogs (s : db) : list AuditLog :=
  take 100 (order_by_created_at (filter pending (audit_logs s))).

Definition to_event (log : AuditLog) : AuditEvent :=
  {| userId := log_user_id log;
     action := log_action log;
     resourceType := log_resource_type log;
     resourceId := log_resource_id log;
     details := read_jsonb (log_details log);
     timestamp := ms_of_timestamptz (log_created_at log);
     ipAddress := log_ip_address log;
     userAgent := log_user_agent log;
     severity := log_severity log |}.

(** [.order('created_at', { ascending: false }).limit(1).single()] *)
Fixpoint latestBatch (rows : list AuditBatch) : option AuditBatch :=
  match rows with
  | [] => None
  | b :: rest =>
      match latestBatch rest with
      | Some later =>
          if batch_created_at b <? batch_created_at later then Some later
          else Some b
      | None => Some b
      end
  end.

(** [lastBatch?.current_hash || '0'.repeat(64)] *)
Definition previousHashOf (lastBatch : option AuditBatch) : string :=
  match lastBatch with
  | Some b => if decide (current_hash b = EmptyString) then genesis_hash
              else current_hash b
  | None => genesis_hash
  end.

Definition minimum (xs : list Z) : Z :=
  match xs with [] => 0 | x :: rest => fold_left Z.min rest x end.

Definition maximum (xs : list Z) : Z :=
  match xs with [] => 0 | x :: rest => fold_left Z.max rest x end.

Definition batchMetadata (auditEvents : list AuditEvent) : BatchMetadata :=
  {| eventCount := Z.of_nat (length auditEvents);
     firstEventTime := minimum (map timestamp auditEvents);
     lastEventTime := maximum (map timestamp auditEvents) |}.

Definition batch_row (batchId : string) (chain : AuditChain)
    (auditEvents : list AuditEvent) : AuditBatch :=
  {| batch_id := batchId;
     previous_hash := previousHash chain;
     current_hash := currentHash chain;
     merkle_root := merkleRoot chain;
     event_count := Z.of_nat (length auditEvents);
     batch_metadata := batchMetadata auditEvents;
     batch_blockchain_tx := Some batchId;
     batch_created_at := timestamptz_of_ms (chain_timestamp chain) |}.

(** The insert into [audit_batches]; [batch_id] is [UNIQUE]. *)
Definition insert_batch (fails : bool) (row : AuditBatch) (rows : list AuditBatch)
  : list AuditBatch :=
  if decide (batch_id row ∈ map batch_id rows) then rows
  else insert_row fails row rows.

Definition with_blockchain_tx (tx : string) (log : AuditLog) : AuditLog :=
  {| log_id := log_id log; log_user_id := log_user_id log;
     log_action := log_action log; log_resource_type := log_resource_type log;
     log_resource_id := log_resource_id log; log_details := log_details log;
     log_severity := log_severity log; encrypted_data := encrypted_data log;
     log_blockchain_tx := Some tx; log_ip_address := log_ip_address log;
     log_user_agent := log_user_agent log; log_created_at := log_created_at log |}.

(** [update({ blockchain_tx: batchId }).in('id', logIds)] *)
Definition mark_logs (fails : bool) (batchId : string) (logIds : list nat)
    (rows : list AuditLog) : list AuditLog :=
  if fails then rows
  else map (fun log => if decide (log_id log ∈ logIds)
                       then with_blockchain_tx batchId log else log) rows.

Definition processBatch (s : db) (w : World) (fl : Faults) : Response * db :=
  match (if pending_query_fails fl then [] else pendingLogs s) with
  | [] => (NoPending, s)
  | logs =>
      let auditEvents := map to_event logs in
      let lastBatch :=
        if last_batch_query_fails fl then None else latestBatch (audit_batches s) in
      match
        createAuditChain (subtle w) auditEvents (previousHashOf lastBatch) (now w)
      with
      | Throws message => (Failure message, s)
      | Returns auditChain =>
          match
            recordAuditBatch (blockchain w) auditChain (batchMetadata auditEvents)
          with
          | None => (Failure "anchoring failed", s)
          | Some batchId =>
              let s1 :=
                set_audit_batches
                  (insert_batch (batch_insert_fails fl)
                     (batch_row batchId auditChain auditEvents)) s in
              let s2 :=
                set_audit_logs
                  (mark_logs (logs_update_fails fl) batchId (map log_id logs)) s1 in
              (BatchProcessed batchId (Z.of_nat (length auditEvents))
                 (merkleRoot auditChain) (currentHash auditChain),
               s2)
          end
      end
  end.

Definition serve (s : db) (req : Request) (w : World) (fl : Faults)
  : Response * db :=
  if is_options req then (Preflight, s)
  else
    match or_string (authorization req) None with
    | None => (MissingAuthorization, s)
    | Some authHeader =>
        match body req with
        | None => (Failure "invalid body", s)
        | Some b =>
            match sessions s !! authHeader with
            | None => (Failure "Invalid authentication", s)
            | Some user =>
                match b with
                | log_event events => logEvent s req w fl user events
                | process_batch => processBatch s w fl
                | other_action => (Failure "Invalid action", s)
                end
            end
        end
    end.

End BlockchainAudit.

(** ** Requests, clocks and sample stores used in the statements *)

(** A student row rewritten by an update that keeps its keys. *)
Definition lift (f : Student -> Student)
    (x : Transcript * Student * Institution) : Transcript * Student * Institution :=
  (fst (fst x), f (snd (fst x)), snd x).


Definition verify_request (b : VerifyWithLimit.Body) : VerifyWithLimit.Request :=
  {| VerifyWithLimit.is_options := false; VerifyWithLimit.body := Some b |}.

Definition no_faults : ResetVerificationCount.Faults :=
  {| ResetVerificationCount.institution_query_fails := false;
     ResetVerificationCount.student_query_fails := false;
     ResetVerificationCount.count_update_fails := false;
     ResetVerificationCount.attempt_insert_fails := false |}.

Definition reset_request (token studentId : string) : ResetVerificationCount.Request :=
  {| ResetVerificationCount.is_options := false;
     ResetVerificationCount.authorization := Some token;
     ResetVerificationCount.body := Some studentId |}.

Definition sample_institution : Institution :=
  {| inst_id := "inst-1"; inst_user_id := "user-1";
     inst_name := "Alma Mater"; inst_email := "registrar@example.edu" |}.

Definition sample_student (count : Z) : Student :=
  {| st_id := "stu-1"; full_name := "Ada"; email := "ada@example.edu";
     institution_id := "inst-1"; verification_count := count;
     verification_limit := 5 |}.

Definition sample_transcript : Transcript :=
  {| tr_id := "tr-1"; tr_student_id := "stu-1"; tr_verification_id := "VT-1-a";
     file_url := None; file_hash := None; issued_at := 0; tr_created_at := 0;
     verified := true; tr_blockchain_tx := None |}.

(** One institution, one of its students with [count] verifications used,
    one transcript, and the institution's session. *)
Definition sample_db (count : Z) : db :=
  {| sessions := {[ "Bearer t1"%string := "user-1"%string ]};
     institutions := [sample_institution];
     students := [sample_student count];
     transcripts := [sample_transcript];
     verification_attempts := [];
     verification_rate_limits := ∅;
     audit_logs := [];
     audit_batches := [] |}.

Definition sample_body : VerifyWithLimit.Body :=
  {| VerifyWithLimit.verificationId := "VT-1-a";
     VerifyWithLimit.ipAddress := Some "203.0.113.7"%string;
     VerifyWithLimit.userAgent := None |}.

Definition clock_at (t : Z) : VerifyWithLimit.Clock :=
  {| VerifyWithLimit.at_check := t; VerifyWithLimit.at_insert := t |}.

Definition verify_faults (update_fails : bool) : VerifyWithLimit.Faults :=
  {| VerifyWithLimit.recent_query_fails := false;
     VerifyWithLimit.transcript_query_fails := false;
     VerifyWithLimit.count_update_fails := update_fails;
     VerifyWithLimit.attempt_insert_fails := false |}.

(** The sample request sent once at each of [times] (milliseconds), every
    database call succeeding. *)
Fixpoint verify_at (s : db) (times : list Z) : list VerifyWithLimit.Response * db :=
  match times with
  | [] => ([], s)
  | t :: later =>
      let '(r, s1) :=
        VerifyWithLimit.serve s (verify_request sample_body) (clock_at t)
          (verify_faults false) in
      let '(rs, s2) := verify_at s1 later in
      (r :: rs, s2)
  end.

Definition sample_event (who what : string) (at_ms : Z) : AuditEvent :=
  {| userId := Some who; action := what; resourceType := transcript_r;
     resourceId := Some "VT-1-a"%string;
     details := JObj [("verified"%string, JBool true)];
     timestamp := at_ms; ipAddress := Some "203.0.113.7"%string;
     userAgent := None; severity := low |}.

Definition three_events : list AuditEvent :=
  [ sample_event "u1" "transcript_verification" 1700000000000;
    sample_event "u2" "login" 1700000000500;
    sample_event "u1" "reset_count" 1700000001000 ].

Definition minute : Z := 60000000.

(** Twenty calls a minute apart, starting at [start]. *)
Definition every_minute (start : Z) : list Z :=
  map (fun k => start + Z.of_nat k * minute) (seq 0 20).

Definition audit_request (b : BlockchainAudit.Body) : BlockchainAudit.Request :=
  {| BlockchainAudit.is_options := false;
     BlockchainAudit.authorization := Some "Bearer t1"%string;
     BlockchainAudit.body := Some b;
     BlockchainAudit.x_forwarded_for := Some "203.0.113.7"%string;
     BlockchainAudit.x_real_ip := None;
     BlockchainAudit.user_agent := Some "curl/8"%string |}.

(** A call at [t] on the edge runtime, with the simulated anchor. *)
Definition world_at (t : Z) : BlockchainAudit.World :=
  {| BlockchainAudit.now := t; BlockchainAudit.ciphertext := "b64";
     BlockchainAudit.blockchain := None;
     BlockchainAudit.subtle := web_crypto |}.

Definition audit_faults (last_batch insert update : bool) : BlockchainAudit.Faults :=
  {| BlockchainAudit.log_insert_fails := false;
     BlockchainAudit.pending_query_fails := false;
     BlockchainAudit.last_batch_query_fails := last_batch;
     BlockchainAudit.batch_insert_fails := insert;
     BlockchainAudit.logs_update_fails := update |}.

Definition log_at (s : db) (e : AuditEvent) (t : Z) : db :=
  snd (BlockchainAudit.serve s (audit_request (BlockchainAudit.log_event e))
         (world_at t) (audit_faults false false false)).

(** Two audit events logged and not yet sealed. *)
Definition two_logged : db :=
  log_at (log_at (sample_db 0) (sample_event "u1" "login" 0) 1000)
    (sample_event "u1" "reset_count" 0) 2000.

(** ** Merkle proofs ([MerkleTree.getProof]) *)

Module MerkleProof.

(** One pass of the [for] loop of [getProof]: the node pushed on the proof,
    if any; [i] is the position of the head of [level]. *)
Fixpoint siblings (i : Z) (level : list string) (currentIndex : Z) : list string :=
  match level with
  | l :: r :: rest =>
      (if i =? currentIndex then [r]
       else if i + 1 =? currentIndex then [l] else [])
      ++ siblings (i + 2) rest currentIndex
  | _ => []
  end.

(** The [while (level.length > 1)] loop of [getProof]; a pass that throws
    takes the proof collected so far with it. *)
Fixpoint proofLoop (subtle : SubtleCrypto) (fuel : nat) (level : list string)
    (currentIndex : Z) : outcome (list string) :=
  match fuel with
  | O => Returns []
  | S fuel' =>
      if (1 <? length level)%nat then
        let* next := MerkleTree.nextLevel subtle level in
        let* above := proofLoop subtle fuel' next (currentIndex / 2) in
        Returns (siblings 0 level currentIndex ++ above)
      else Returns []
  end.

Definition getProof (subtle : SubtleCrypto) (tree : MerkleTree.t) (index : Z)
  : outcome (list string) :=
  proofLoop subtle (length (MerkleTree.leaves tree)) (MerkleTree.leaves tree) index.

(** The root recomputed, with the hash of the tree, from the node at
    position [index] of a level of [n] nodes and a proof: a node with a
    neighbour is hashed with the next proof element, on the side its parity
    gives; the last node of an odd level moves up as it is. *)
Fixpoint rootFromProof (subtle : SubtleCrypto) (fuel n index : nat) (node : string)
    (proof : list string) : outcome string :=
  match fuel with
  | O => Returns node
  | S fuel' =>
      if (1 <? n)%nat then
        let up := rootFromProof subtle fuel' ((n + 1) / 2)%nat (index / 2)%nat in
        if Nat.even index then
          if (S index <? n)%nat then
            match proof with
            | sibling :: rest =>
                let* parent := MerkleTree.pairwiseHash subtle node sibling in
                up parent rest
            | [] => Returns node
            end
          else up node proof
        else
          match proof with
          | sibling :: rest =>
              let* parent := MerkleTree.pairwiseHash subtle sibling node in
              up parent rest
          | [] => Returns node
          end
      else Returns node
  end.

End MerkleProof.

(** ** The shape of a hash *)

Definition is_lower_hex (c : ascii) : bool :=
  let n := Z.of_N (N_of_ascii c) in
  ((48 <=? n) && (n <=? 57)) || ((97 <=? n) && (n <=? 102)).

Fixpoint all_chars (p : ascii -> bool) (s : string) : bool :=
  match s with
  | EmptyString => true
  | String c s' => p c && all_chars p s'
  end.

(** Sixty-four characters out of [0-9a-f]. *)
Definition hash_shaped (s : string) : Prop :=
  String.length s = 64%nat /\ all_chars is_lower_hex s = true.

(** ** Orders and bounds used in the statements *)


(** [verification_limit || 5] *)
Definition effective_limit (st : Student) : Z := or_default (verification_limit st) 5.

(** Student ids are unique and every counter lies between zero and its limit. *)
Definition quota_respected (s : db) : Prop :=
  NoDup (map st_id (students s))
  /\ forall st, st ∈ students s -> 0 <= verification_count st <= effective_limit st.

(** The tables the quota handlers never write. *)
Definition same_outside_quota (s s' : db) : Prop :=
  sessions s' = sessions s /\ institutions s' = institutions s
  /\ transcripts s' = transcripts s
  /\ verification_rate_limits s' = verification_rate_limits s
  /\ audit_logs s' = audit_logs s /\ audit_batches s' = audit_batches s.

(** [s] cut at every [sep]. *)
Fixpoint fields (sep : ascii) (s : string) : list string :=
  match s with
  | EmptyString => [EmptyString]
  | String c rest =>
      if Ascii.eqb c sep then EmptyString :: fields sep rest
      else match fields sep rest with
           | field :: more => String c field :: more
           | [] => [String c EmptyString]
           end
  end.

(** A decimal number from 0 to 255 without leading zero. *)
Definition is_octet (field : string) : bool :=
  match decimal_value 0 field with
  | Some n => is_array_index field && (n <=? 255)
  | None => false
  end.

(** Four octets separated by dots: an address every [inet] argument
    accepts. *)
Definition is_ipv4 (address : string) : bool :=
  match fields "." address with
  | [a; b; c; d] => is_octet a && is_octet b && is_octet c && is_octet d
  | _ => false
  end.

(** The tables [verify-transcript] never writes. *)
Definition same_outside_limits_and_audit (s s' : db) : Prop :=
  sessions s' = sessions s /\ institutions s' = institutions s
  /\ students s' = students s /\ transcripts s' = transcripts s
  /\ verification_attempts s' = verification_attempts s
  /\ audit_batches s' = audit_batches s.

(** * Properties *)

(** ** SHA-256 test vectors (FIPS 180-4) *)

Example sha256_constants :
  length Sha256.primes = 64%nat /\ List.last Sha256.primes 0 = 311
  /\ nth 0 Sha256.K 0 = 0x428a2f98 /\ nth 63 Sha256.K 0 = 0xc67178f2
  /\ nth 0 Sha256.H0 0 = 0x6a09e667 /\ nth 7 Sha256.H0 0 = 0x5be0cd19.
Proof. repeat split. Qed.

Example sha256_hex_abc :
  sha256_hex "abc" = "ba7816bf8f01cfea414140de5dae2223b00361a396177a9cb410ff61f20015ad"%string.
Proof. vm_compute. reflexivity. Qed.

Example sha256_hex_empty :
  sha256_hex EmptyString
  = "e3b0c44298fc1c149afbf4c8996fb92427ae41e4649b934ca495991b7852b855"%string.
Proof. vm_compute. reflexivity. Qed.

Example sha256_hex_two_blocks :
  sha256_hex "abcdbcdecdefdefgefghfghighijhijkijkljklmklmnlmnomnopnopq"
  = "248d6a61d20638b8e5c026930c3e6039a33ce45964ff2167f6ecedd419db06c1"%string.
Proof. vm_compute. reflexivity. Qed.

Example stringify_nested :
  stringify (JObj [("a"%string, JNum (-3));
                   ("b"%string, JArr [JNull; JBool true; JStr "x"%string])])
  = String "{" (quote "a" ++ ":-3," ++ quote "b" ++ ":[null,true," ++ quote "x" ++ "]}")%string.
Proof. vm_compute. reflexivity. Qed.

(** ** Exceptions *)

Lemma bind_returns {A B : Type} (x : outcome A) (k : A -> outcome B) (b : B) :
  bind x k = Returns b -> exists a, x = Returns a /\ k a = Returns b.
Proof. destruct x as [a|m]; cbn; [eauto | discriminate]. Qed.

(** A list whose first item makes [f] throw: the map throws. *)
Lemma traverse_throws {A B : Type} (f : A -> outcome B) (m : string)
    (x : A) (rest : list A) :
  f x = Throws m -> traverse f (x :: rest) = Throws m.
Proof. intros H. cbn [traverse]. now rewrite H. Qed.

(** ** Merkle tree *)

Section Merkle.

Import MerkleTree.

Variable subtle : SubtleCrypto.

Lemma hash_throws (data : string) :
  digestSync subtle = None -> hash subtle data = Throws not_a_function.
Proof. unfold hash. now intros ->. Qed.

Lemma nextLevel_length (level next : list string) :
  nextLevel subtle level = Returns next ->
  length next = ((length level + 1) / 2)%nat.
Proof.
  revert next.
  enough (H : (forall next, nextLevel subtle level = Returns next ->
                            length next = ((length level + 1) / 2)%nat)
              /\ forall a next, nextLevel subtle (a :: level) = Returns next ->
                                length next = ((length (a :: level) + 1) / 2)%nat)
    by apply H.
  induction level as [|b rest [IH1 IH2]]; split.
  - intros next [= <-]. reflexivity.
  - intros a next [= <-]. reflexivity.
  - apply IH2.
  - intros a next H. cbn [nextLevel] in H.
    apply bind_returns in H as (parent & _ & H).
    apply bind_returns in H as (more & Hmore & [= <-]).
    cbn [length]. rewrite (IH1 more Hmore).
    replace (S (S (length rest)) + 1)%nat with ((length rest + 1) + 1 * 2)%nat by lia.
    rewrite Nat.div_add by lia. lia.
Qed.

Lemma half_le (n fuel : nat) :
  (1 < n)%nat -> (n <= S (S fuel))%nat -> ((n + 1) / 2 <= S fuel)%nat.
Proof.
  intros H1 H2.
  pose proof (Nat.Div0.div_mod (n + 1) 2). pose proof (Nat.mod_upper_bound (n + 1) 2).
  lia.
Qed.

Lemma half_pos (n : nat) : (0 < n)%nat -> (0 < (n + 1) / 2)%nat.
Proof.
  intros H.
  pose proof (Nat.Div0.div_mod (n + 1) 2). pose proof (Nat.mod_upper_bound (n + 1) 2).
  lia.
Qed.

Lemma reduce_short (fuel : nat) (level : list string) :
  (length level <= 1)%nat -> reduce subtle fuel level = Returns level.
Proof.
  intros H. destruct fuel as [|fuel]; [reflexivity|]. cbn [reduce].
  destruct (Nat.ltb_spec 1 (length level)); [lia | reflexivity].
Qed.

(** The loop ends: fuel beyond the number of nodes changes nothing. *)
Lemma reduce_enough (fuel : nat) :
  forall (level : list string) (extra : nat),
    (length level <= S fuel)%nat ->
    reduce subtle (fuel + extra) level = reduce subtle fuel level.
Proof.
  induction fuel as [|fuel IH]; intros level extra H.
  - cbn [Nat.add reduce]. now apply reduce_short.
  - cbn [Nat.add reduce].
    destruct (Nat.ltb_spec 1 (length level)) as [Hlt|_]; [|reflexivity].
    destruct (nextLevel subtle level) as [next|m] eqn:E; [|reflexivity].
    cbn [bind]. apply IH. rewrite (nextLevel_length _ _ E). now apply half_le.
Qed.

Lemma reduce_length (fuel : nat) :
  forall (level top : list string),
    (length level <= S fuel)%nat -> reduce subtle fuel level = Returns top ->
    (length top <= 1)%nat /\ (level <> [] -> top <> []).
Proof.
  induction fuel as [|fuel IH]; intros level top H.
  - intros [= <-]. split; [exact H | auto].
  - cbn [reduce]. destruct (Nat.ltb_spec 1 (length level)) as [Hlt|Hge].
    + intros E. apply bind_returns in E as (next & Hnext & E).
      pose proof (nextLevel_length _ _ Hnext) as Hlen.
      destruct (IH next top) as [IH1 IH2];
        [rewrite Hlen; now apply half_le | exact E |].
      split; [exact IH1|]. intros _. apply IH2. intros ->.
      pose proof (half_pos (length level)). cbn [length] in Hlen. lia.
    + intros [= <-]. split; [exact Hge | auto].
Qed.

Lemma getRoot_reduce (level : list string) :
  level <> [] ->
  getRoot subtle (Build level)
  = let* top := reduce subtle (length level) level in Returns (nth 0 top EmptyString).
Proof. destruct level as [|a [|b rest]]; [congruence | reflexivity..]. Qed.

Lemma getRoot_step (a b : string) (rest : list string) :
  getRoot subtle (Build (a :: b :: rest))
  = let* next := nextLevel subtle (a :: b :: rest) in getRoot subtle (Build next).
Proof.
  rewrite getRoot_reduce by discriminate.
  change (reduce subtle (length (a :: b :: rest)) (a :: b :: rest))
    with (let* next := nextLevel subtle (a :: b :: rest) in
          reduce subtle (S (length rest)) next).
  destruct (nextLevel subtle (a :: b :: rest)) as [next|m] eqn:E; [|reflexivity].
  cbn [bind]. pose proof (nextLevel_length _ _ E) as Hlen. cbn [length] in Hlen.
  assert (Hnext : next <> []).
  { intros ->. pose proof (half_pos (S (S (length rest)))).
    cbn [length] in Hlen. lia. }
  rewrite (getRoot_reduce next Hnext).
  assert (Hle : (length next <= S (length rest))%nat).
  { rewrite Hlen. apply half_le; lia. }
  replace (S (length rest)) with (length next + (S (length rest) - length next))%nat
    by lia.
  rewrite reduce_enough by lia. reflexivity.
Qed.

Lemma nextLevel_odd (level : list string) (x : string) :
  Nat.Even (length level) ->
  nextLevel subtle (level ++ [x])
  = let* up := nextLevel subtle level in Returns (up ++ [x]).
Proof.
  intros [k Hk]. revert level Hk.
  induction k as [|k IH]; intros level Hk.
  - destruct level; [reflexivity | simpl in Hk; lia].
  - destruct level as [|a [|b rest]]; simpl in Hk; try lia.
    cbn [app nextLevel]. rewrite IH by lia.
    destruct (pairwiseHash subtle a b); [|reflexivity]. cbn [bind].
    destruct (nextLevel subtle rest); reflexivity.
Qed.

(** The hash is the only call that can throw: a level of two or more nodes
    cannot be reduced without it. *)
Lemma nextLevel_throws (a b : string) (rest : list string) :
  digestSync subtle = None ->
  nextLevel subtle (a :: b :: rest) = Throws not_a_function.
Proof.
  intros H. cbn [nextLevel]. unfold pairwiseHash. now rewrite hash_throws.
Qed.

End Merkle.

(** C8, as the code has it.  Building a tree from no data is no error: the
    tree has no leaves and its root is the empty string.  A tree of one leaf
    has that leaf as root.  Otherwise adjacent nodes are hashed pairwise,
    level by level, and the last node of a level of odd length moves up
    unchanged, without being hashed or duplicated.  Every hash is a call of
    [crypto.subtle.digestSync], and what that call throws, the construction
    throws. *)
Theorem merkle_root_construction (subtle : SubtleCrypto) :
  MerkleTree.make subtle [] = Returns (MerkleTree.Build [])
  /\ MerkleTree.getRoot subtle (MerkleTree.Build []) = Returns EmptyString
  /\ (forall leaf,
        MerkleTree.getRoot subtle (MerkleTree.Build [leaf]) = Returns leaf)
  /\ (forall a b,
        MerkleTree.getRoot subtle (MerkleTree.Build [a; b])
        = MerkleTree.hash subtle (a ++ b))
  /\ (forall a b c,
        MerkleTree.getRoot subtle (MerkleTree.Build [a; b; c])
        = let* ab := MerkleTree.hash subtle (a ++ b) in
          MerkleTree.hash subtle (ab ++ c))
  /\ (forall a b c d,
        MerkleTree.getRoot subtle (MerkleTree.Build [a; b; c; d])
        = let* ab := MerkleTree.hash subtle (a ++ b) in
          let* cd := MerkleTree.hash subtle (c ++ d) in
          MerkleTree.hash subtle (ab ++ cd))
  /\ (forall a b c d e,
        MerkleTree.getRoot subtle (MerkleTree.Build [a; b; c; d; e])
        = let* ab := MerkleTree.hash subtle (a ++ b) in
          let* cd := MerkleTree.hash subtle (c ++ d) in
          let* abcd := MerkleTree.hash subtle (ab ++ cd) in
          MerkleTree.hash subtle (abcd ++ e))
  /\ (forall a b rest,
        MerkleTree.getRoot subtle (MerkleTree.Build (a :: b :: rest))
        = let* parent := MerkleTree.hash subtle (a ++ b) in
          let* more := MerkleTree.nextLevel subtle rest in
          MerkleTree.getRoot subtle (MerkleTree.Build (parent :: more)))
  /\ (forall (nodes : list string) (lone : string),
        Nat.Even (length nodes) ->
        MerkleTree.nextLevel subtle (nodes ++ [lone])
        = let* up := MerkleTree.nextLevel subtle nodes in Returns (up ++ [lone]))
  /\ (forall datum data,
        MerkleTree.make subtle (datum :: data)
        = let* leaf := MerkleTree.hash subtle datum in
          let* others := MerkleTree.make subtle data in
          Returns (MerkleTree.Build (leaf :: MerkleTree.leaves others))).
Proof.
  assert (Hshape : forall level,
             (length level <= 5)%nat ->
             MerkleTree.getRoot subtle (MerkleTree.Build level)
             = match level with
               | [] => Returns EmptyString
               | [leaf] => Returns leaf
               | [a; b] => MerkleTree.hash subtle (a ++ b)
               | [a; b; c] =>
                   let* ab := MerkleTree.hash subtle (a ++ b) in
                   MerkleTree.hash subtle (ab ++ c)
               | [a; b; c; d] =>
                   let* ab := MerkleTree.hash subtle (a ++ b) in
                   let* cd := MerkleTree.hash subtle (c ++ d) in
                   MerkleTree.hash subtle (ab ++ cd)
               | a :: b :: c :: d :: e :: _ =>
                   let* ab := MerkleTree.hash subtle (a ++ b) in
                   let* cd := MerkleTree.hash subtle (c ++ d) in
                   let* abcd := MerkleTree.hash subtle (ab ++ cd) in
                   MerkleTree.hash subtle (abcd ++ e)
               end).
  { intros level Hlen.
    destruct level as [|a [|b [|c [|d [|e [|x rest]]]]]]; cbn in Hlen; try lia;
      try reflexivity; destruct subtle as [[f|]]; reflexivity. }
  split; [reflexivity|]. split; [reflexivity|]. split; [reflexivity|].
  split; [intros a b; apply (Hshape [a; b]); cbn; lia|].
  split; [intros a b c; apply (Hshape [a; b; c]); cbn; lia|].
  split; [intros a b c d; apply (Hshape [a; b; c; d]); cbn; lia|].
  split; [intros a b c d e; apply (Hshape [a; b; c; d; e]); cbn; lia|].
  split.
  { intros a b rest. rewrite getRoot_step. cbn [MerkleTree.nextLevel].
    unfold MerkleTree.pairwiseHash.
    destruct (MerkleTree.hash subtle (a ++ b)); [|reflexivity]. cbn [bind].
    destruct (MerkleTree.nextLevel subtle rest); reflexivity. }
  split; [intros nodes lone; apply nextLevel_odd|].
  intros datum data. unfold MerkleTree.make. cbn [traverse].
  destruct (MerkleTree.hash subtle datum); [|reflexivity]. cbn [bind].
  destruct (traverse (MerkleTree.hash subtle) data); reflexivity.
Qed.

Lemma merkle_root_construction_witness :
  MerkleTree.make web_crypto [] = Returns (MerkleTree.Build [])
  /\ MerkleTree.getRoot web_crypto (MerkleTree.Build []) = Returns EmptyString
  /\ MerkleTree.nextLevel web_crypto ([] ++ ["c"%string]) = Returns ["c"%string].
Proof.
  destruct (merkle_root_construction web_crypto) as (H1 & H2 & _ & _ & _ & _ & _ & _ & H9 & _).
  split; [exact H1|]. split; [exact H2|].
  rewrite (H9 [] "c"%string); [reflexivity | exists 0%nat; reflexivity].
Defined.

(** C8, as stated, fails on zero leaves: the constructor builds the tree,
    [getRoot] answers the empty string, and [createAuditChain] goes on to
    build a block around it; nothing throws. *)
Lemma merkle_root_of_no_leaf :
  (exists tree, MerkleTree.make web_crypto [] = Returns tree
                /\ MerkleTree.leaves tree = []
                /\ MerkleTree.getRoot web_crypto tree = Returns EmptyString)
  /\ exists chain, createAuditChain web_crypto [] genesis_hash 0 = Returns chain
                   /\ merkleRoot chain = EmptyString.
Proof.
  split.
  - eexists. split; [reflexivity|]. split; reflexivity.
  - eexists. split; [reflexivity|]. reflexivity.
Qed.

(** ** The hash chain *)

Lemma createAuditChain_returns (subtle : SubtleCrypto) (auditEvents : list AuditEvent)
    (previous : string) (now : Z) (chain : AuditChain) :
  createAuditChain subtle auditEvents previous now = Returns chain ->
  exists hashes leaves root,
    traverse (eventHash subtle) auditEvents = Returns hashes
    /\ traverse (MerkleTree.hash subtle) hashes = Returns leaves
    /\ MerkleTree.getRoot subtle (MerkleTree.Build leaves) = Returns root
    /\ chain = {| previousHash := previous;
                  currentHash :=
                    sha256_hex
                      (stringify (blockData previous root now (length auditEvents)));
                  merkleRoot := root;
                  chain_timestamp := now |}.
Proof.
  unfold createAuditChain, MerkleTree.make. intros H.
  apply bind_returns in H as (hashes & Hh & H).
  apply bind_returns in H as (tree & Ht & H).
  apply bind_returns in Ht as (leaves & Hl & [= <-]).
  apply bind_returns in H as (root & Hr & [= <-]).
  exists hashes, leaves, root. auto.
Qed.

(** Whether [createAuditChain] returns does not depend on the previous hash
    or on the clock. *)
Lemma createAuditChain_throws (subtle : SubtleCrypto) (auditEvents : list AuditEvent)
    (previous previous' : string) (now now' : Z) (m : string) :
  createAuditChain subtle auditEvents previous now = Throws m ->
  createAuditChain subtle auditEvents previous' now' = Throws m.
Proof.
  unfold createAuditChain.
  destruct (traverse (eventHash subtle) auditEvents) as [hashes|]; [|auto].
  cbn [bind]. destruct (MerkleTree.make subtle hashes) as [tree|]; [|auto].
  cbn [bind]. destruct (MerkleTree.getRoot subtle tree); [discriminate | auto].
Qed.

Lemma string_app_assoc (a b c : string) : ((a ++ b) ++ c = a ++ (b ++ c))%string.
Proof.
  induction a as [|x a IH]; [reflexivity|].
  change (String x ((a ++ b) ++ c) = String x (a ++ (b ++ c)))%string.
  now rewrite IH.
Qed.

Lemma stringify_blockData (previous root : string) (now : Z) (count : nat) :
  stringify (blockData previous root now count)
  = ("{" ++ quote "previousHash" ++ ":" ++ quote previous
         ++ "," ++ quote "merkleRoot" ++ ":" ++ quote root
         ++ "," ++ quote "timestamp" ++ ":" ++ decimal now
         ++ "," ++ quote "eventCount" ++ ":" ++ decimal (Z.of_nat count) ++ "}")%string.
Proof.
  unfold blockData. cbn [stringify map join].
  rewrite !string_app_assoc. reflexivity.
Qed.

(** C5, as the code has it.  Two runs on the same events either both throw,
    with the same error, or both return, whatever the previous hash and
    whenever they run; when they return they agree on the Merkle root, which
    is the root of the tree whose leaves are the hashes of the event hashes;
    the current hash is the SHA-256 of the JSON text of previous hash, Merkle
    root, the reading of the clock taken inside the call, and event count,
    so runs that chain on the same hash and read the same time agree on it
    too. *)
Theorem createAuditChain_deterministic_part
    (subtle : SubtleCrypto) (auditEvents : list AuditEvent)
    (previous previous' : string) (now now' : Z) :
  match createAuditChain subtle auditEvents previous now,
        createAuditChain subtle auditEvents previous' now' with
  | Returns chain, Returns chain' =>
      merkleRoot chain = merkleRoot chain'
      /\ (exists hashes leaves,
             traverse (eventHash subtle) auditEvents = Returns hashes
             /\ traverse (MerkleTree.hash subtle) hashes = Returns leaves
             /\ MerkleTree.getRoot subtle (MerkleTree.Build leaves)
                = Returns (merkleRoot chain))
      /\ previousHash chain = previous
      /\ chain_timestamp chain = now
      /\ currentHash chain
         = sha256_hex
             ("{" ++ quote "previousHash" ++ ":" ++ quote previous
                  ++ "," ++ quote "merkleRoot" ++ ":" ++ quote (merkleRoot chain)
                  ++ "," ++ quote "timestamp" ++ ":" ++ decimal now
                  ++ "," ++ quote "eventCount" ++ ":"
                  ++ decimal (Z.of_nat (length auditEvents)) ++ "}")
      /\ (previous = previous' -> now = now' -> chain = chain')
  | Throws message, Throws message' => message = message'
  | Returns _, Throws _ | Throws _, Returns _ => False
  end.
Proof.
  destruct (createAuditChain subtle auditEvents previous now) as [chain|m] eqn:E.
  - destruct (createAuditChain subtle auditEvents previous' now') as [chain'|m'] eqn:E'.
    + destruct (createAuditChain_returns _ _ _ _ _ E)
        as (hashes & leaves & root & Hh & Hl & Hr & ->).
      destruct (createAuditChain_returns _ _ _ _ _ E')
        as (hashes' & leaves' & root' & Hh' & Hl' & Hr' & ->).
      rewrite Hh in Hh'. injection Hh' as <-.
      rewrite Hl in Hl'. injection Hl' as <-.
      rewrite Hr in Hr'. injection Hr' as <-.
      cbn [merkleRoot previousHash chain_timestamp currentHash].
      split; [reflexivity|].
      split; [exists hashes, leaves; auto|].
      split; [reflexivity|]. split; [reflexivity|].
      split; [now rewrite stringify_blockData|].
      intros <- <-. reflexivity.
    + apply (createAuditChain_throws _ _ _ previous _ now) in E'. congruence.
  - now rewrite (createAuditChain_throws _ _ _ previous' _ now' _ E).
Qed.

(** C5, as stated, fails: two runs on the same events (none) and the same
    previous hash, one millisecond apart, return the same Merkle root and
    different current hashes. *)
Lemma createAuditChain_depends_on_clock :
  exists first second,
    createAuditChain web_crypto [] genesis_hash 1700000002000 = Returns first
    /\ createAuditChain web_crypto [] genesis_hash 1700000002001 = Returns second
    /\ merkleRoot first = merkleRoot second
    /\ currentHash first <> currentHash second.
Proof.
  do 2 eexists. split; [reflexivity|]. split; [reflexivity|].
  split; [reflexivity|]. vm_compute. discriminate.
Qed.

(** ** The rate limiter *)

Lemma last_cons (x d : Z) (l : list Z) : List.last (x :: l) d = List.last l x.
Proof.
  revert x d. induction l as [|y l IH]; intros x d; [reflexivity|].
  change (List.last (y :: l) d = List.last (y :: l) x). now rewrite !IH.
Qed.

Section RateLimit.

Import RateLimiter.

Variables (ip : string) (vid : option string).

Lemma check_allowed (limits : gmap string RateLimit) (now : Z) :
  blocked (limits !! ip) now = false ->
  current_attempts (limits !! ip) (now - hour) < threshold ->
  check_verification_rate_limit limits ip vid now
  = (true, <[ip := attempt_upsert (limits !! ip) vid now]> limits).
Proof.
  intros Hb Hc. unfold check_verification_rate_limit. rewrite Hb.
  destruct (Z.leb_spec threshold (current_attempts (limits !! ip) (now - hour)));
    [lia | reflexivity].
Qed.

Lemma check_blocked (limits : gmap string RateLimit) (now : Z) :
  blocked (limits !! ip) now = true ->
  check_verification_rate_limit limits ip vid now = (false, limits).
Proof. intros Hb. unfold check_verification_rate_limit. now rewrite Hb. Qed.

Lemma check_blocks (limits : gmap string RateLimit) (now : Z) :
  blocked (limits !! ip) now = false ->
  threshold <= current_attempts (limits !! ip) (now - hour) ->
  check_verification_rate_limit limits ip vid now
  = (false, <[ip := block_upsert (limits !! ip) vid now]> limits).
Proof.
  intros Hb Hc. unfold check_verification_rate_limit. rewrite Hb.
  destruct (Z.leb_spec threshold (current_attempts (limits !! ip) (now - hour)));
    [reflexivity | lia].
Qed.

(** A key that was never blocked and stays under the threshold is let
    through, whatever the times of its calls. *)
Lemma calls_under_threshold (times : list Z) :
  forall (limits : gmap string RateLimit) (r : RateLimit),
    limits !! ip = Some r ->
    blocked_until r = None ->
    attempt_count r + Z.of_nat (length times) <= threshold ->
    fst (calls limits ip vid times) = repeat true (length times)
    /\ exists r', snd (calls limits ip vid times) !! ip = Some r'
                  /\ attempt_count r' = attempt_count r + Z.of_nat (length times)
                  /\ blocked_until r' = None
                  /\ last_attempt_at r' = List.last times (last_attempt_at r).
Proof.
  induction times as [|now later IH]; intros limits r Hr Hb Hc.
  - split; [reflexivity|]. exists r. simpl. repeat split; auto. lia.
  - cbn [calls]. rewrite check_allowed; rewrite ?Hr.
    + set (r1 := attempt_upsert (Some r) vid now).
      destruct (IH (<[ip := r1]> limits) r1) as [Hoks (r' & Hr' & Hcount & Hblk & Hlast)].
      * apply lookup_insert_eq.
      * exact Hb.
      * subst r1. cbn [attempt_upsert attempt_count]. simpl length in Hc. lia.
      * destruct (calls (<[ip := r1]> limits) ip vid later) as [oks limits2].
        cbn [fst snd] in *. split; [now rewrite Hoks|].
        exists r'. repeat split; auto.
        -- rewrite Hcount. subst r1. cbn [attempt_upsert attempt_count].
           cbn [length]. lia.
        -- rewrite Hlast. subst r1. cbn [attempt_upsert last_attempt_at].
           now rewrite last_cons.
    + unfold blocked. now rewrite Hb.
    + unfold current_attempts, threshold in *. simpl length in Hc.
      destruct (_ <? _); lia.
Qed.

Lemma calls_from_fresh_key (limits : gmap string RateLimit) (times : list Z) :
  limits !! ip = None ->
  (0 < length times)%nat ->
  Z.of_nat (length times) <= threshold ->
  fst (calls limits ip vid times) = repeat true (length times)
  /\ exists r', snd (calls limits ip vid times) !! ip = Some r'
                /\ attempt_count r' = Z.of_nat (length times)
                /\ blocked_until r' = None
                /\ last_attempt_at r' = List.last times 0.
Proof.
  intros Hnone Hpos Hlen. destruct times as [|now later]; [simpl in Hpos; lia|].
  cbn [calls]. rewrite check_allowed; rewrite ?Hnone; try (simpl; reflexivity).
  - set (r1 := attempt_upsert None vid now).
    destruct (calls_under_threshold later (<[ip := r1]> limits) r1)
      as [Hoks (r' & Hr' & Hcount & Hblk & Hlast)].
    + apply lookup_insert_eq.
    + reflexivity.
    + subst r1. cbn [attempt_upsert attempt_count]. simpl length in Hlen. lia.
    + destruct (calls (<[ip := r1]> limits) ip vid later) as [oks limits2].
      cbn [fst snd] in *. split; [now rewrite Hoks|].
      exists r'. repeat split; auto.
      * rewrite Hcount. subst r1. cbn [attempt_upsert attempt_count].
        cbn [length]. lia.
      * rewrite Hlast. subst r1. cbn [attempt_upsert last_attempt_at].
        now rewrite last_cons.
Qed.

End RateLimit.

(** C2, as the code has it: from a key without a row, twenty calls are all
    allowed and bring the count to twenty; a twenty-first call less than an
    hour after the twentieth is refused and sets [blocked_until] one hour
    after that call; every call before [blocked_until] is refused and leaves
    the row as it is; a call at or after [blocked_until] is allowed. *)
Theorem rate_limit_block_and_release
    (limits : gmap string RateLimit) (ip : string) (vid : option string)
    (times : list Z) (t21 : Z) :
  limits !! ip = None ->
  length times = 20%nat ->
  t21 - RateLimiter.hour < List.last times 0 ->
  let limits20 := snd (RateLimiter.calls limits ip vid times) in
  let limits21 :=
    snd (RateLimiter.check_verification_rate_limit limits20 ip vid t21) in
  fst (RateLimiter.calls limits ip vid times) = repeat true 20
  /\ attempt_count <$> limits20 !! ip = Some 20
  /\ fst (RateLimiter.check_verification_rate_limit limits20 ip vid t21) = false
  /\ limits21 !! ip ≫= blocked_until = Some (t21 + RateLimiter.hour)
  /\ (forall t, t < t21 + RateLimiter.hour ->
        RateLimiter.check_verification_rate_limit limits21 ip vid t
        = (false, limits21))
  /\ (forall t, t21 + RateLimiter.hour <= t ->
        fst (RateLimiter.check_verification_rate_limit limits21 ip vid t) = true).
Proof.
  intros Hnone Hlen Hlast limits20 limits21.
  destruct (calls_from_fresh_key ip vid limits times Hnone)
    as [Hoks (r & Hr & Hcount & Hblk & Hl)].
  { rewrite Hlen. lia. }
  { rewrite Hlen. unfold RateLimiter.threshold. lia. }
  fold limits20 in Hr. rewrite Hlen in Hoks, Hcount.
  assert (H21 : RateLimiter.check_verification_rate_limit limits20 ip vid t21
                = (false, <[ip := RateLimiter.block_upsert (Some r) vid t21]> limits20)).
  { rewrite <- Hr. apply check_blocks; rewrite Hr.
    - unfold RateLimiter.blocked. now rewrite Hblk.
    - unfold RateLimiter.current_attempts, RateLimiter.threshold.
      rewrite Hl, Hcount.
      destruct (Z.ltb_spec (t21 - RateLimiter.hour) (List.last times 0)); lia. }
  assert (Hrow : limits21 !! ip = Some (RateLimiter.block_upsert (Some r) vid t21)).
  { subst limits21. rewrite H21. apply lookup_insert_eq. }
  split; [exact Hoks|].
  split; [rewrite Hr; simpl; now rewrite Hcount|].
  split; [now rewrite H21|].
  split; [rewrite Hrow; reflexivity|].
  split.
  - intros t Ht. apply check_blocked. rewrite Hrow.
    cbn [RateLimiter.blocked RateLimiter.block_upsert blocked_until].
    apply Z.ltb_lt. exact Ht.
  - intros t Ht. rewrite check_allowed; [reflexivity| |]; rewrite Hrow.
    + cbn [RateLimiter.blocked RateLimiter.block_upsert blocked_until].
      apply Z.ltb_ge. exact Ht.
    + cbn [RateLimiter.current_attempts RateLimiter.block_upsert last_attempt_at].
      destruct (Z.ltb_spec (t - RateLimiter.hour) t21);
        unfold RateLimiter.threshold; lia.
Qed.

Lemma rate_limit_block_and_release_witness :
  fst (RateLimiter.calls ∅ "203.0.113.7" None (every_minute 0)) = repeat true 20
  /\ fst (RateLimiter.check_verification_rate_limit
            (snd (RateLimiter.calls ∅ "203.0.113.7" None (every_minute 0)))
            "203.0.113.7" None (20 * minute)) = false.
Proof.
  destruct (rate_limit_block_and_release ∅ "203.0.113.7" None (every_minute 0)
              (20 * minute))
    as (H1 & _ & H3 & _).
  - reflexivity.
  - reflexivity.
  - vm_compute. reflexivity.
  - split; [exact H1 | exact H3].
Defined.

(** C2, as stated, fails: twenty calls a minute apart are allowed, the call
    at minute 20 is refused and blocks the key until minute 80, and the call
    made 61 minutes after the first attempt is refused as well. *)
Lemma rate_limit_still_blocked_after_61_minutes :
  fst (RateLimiter.calls ∅ "203.0.113.7" (Some "VT-1-a"%string)
         (every_minute 0 ++ [20 * minute; 61 * minute]))
  = repeat true 20 ++ [false; false].
Proof. vm_compute. reflexivity. Qed.

(** ** The quota counter *)

Lemma find_none_all {A} (f : A -> bool) (l : list A) :
  (forall x, x ∈ l -> f x = false) -> List.find f l = None.
Proof.
  induction l as [|x l IH]; intros H; [reflexivity|].
  simpl. rewrite (H x) by constructor. apply IH.
  intros y Hy. apply H. now constructor.
Qed.

Lemma filter_map_comm {A} (P : A -> Prop) `{!forall x, Decision (P x)}
    (f : A -> A) (l : list A) :
  (forall x, P (f x) <-> P x) -> filter P (map f l) = map f (filter P l).
Proof.
  intros Hf. induction l as [|x l IH]; [reflexivity|].
  cbn [map]. rewrite !filter_cons.
  destruct (decide (P (f x))) as [Hy|Hn], (decide (P x)) as [Hy'|Hn'].
  - cbn [map]. now rewrite IH.
  - pose proof (Hf x). tauto.
  - pose proof (Hf x). tauto.
  - exact IH.
Qed.

Lemma elem_of_insert_row {A} (fails : bool) (row x : A) (table : list A) :
  x ∈ insert_row fails row table -> x = row \/ x ∈ table.
Proof.
  unfold insert_row. destruct fails; [now right|].
  rewrite elem_of_app, list_elem_of_singleton. tauto.
Qed.

Lemma or_default_0 (x : Z) : or_default x 0 = x.
Proof. unfold or_default. destruct (Z.eqb_spec x 0); congruence. Qed.

Section Quota.

Import VerifyWithLimit.

Variable f : Student -> Student.
Hypothesis f_id : forall st, st_id (f st) = st_id st.
Hypothesis f_institution : forall st, institution_id (f st) = institution_id st.

Lemma joined_map (s : db) (tr : Transcript) :
  joined (set_students (map f) s) tr = map (lift f) (joined s tr).
Proof.
  unfold joined. cbn [students institutions set_students].
  rewrite filter_map_comm by (intros st; now rewrite f_id).
  induction (filter (fun st => st_id st = tr_student_id tr) (students s))
    as [|st l IH]; [reflexivity|].
  cbn [map flat_map]. rewrite map_app, IH. f_equal.
  rewrite f_institution, map_map. reflexivity.
Qed.

Lemma flat_map_joined_map (s : db) (trs : list Transcript) :
  flat_map (joined (set_students (map f) s)) trs
  = map (lift f) (flat_map (joined s) trs).
Proof.
  induction trs as [|tr trs IH]; [reflexivity|].
  cbn [flat_map]. now rewrite map_app, joined_map, IH.
Qed.

Lemma findTranscript_map (fl : Faults) (s : db) (vid : string)
    (tr : Transcript) (st : Student) (inst : Institution) :
  findTranscript fl s vid = Some (tr, st, inst) ->
  findTranscript fl (set_students (map f) s) vid = Some (tr, f st, inst).
Proof.
  unfold findTranscript. destruct (transcript_query_fails fl); [discriminate|].
  cbn [transcripts set_students]. rewrite flat_map_joined_map.
  destruct (flat_map (joined s) _) as [|x [|y l]]; cbn [single map];
    try discriminate.
  intros [= ->]. reflexivity.
Qed.

End Quota.

Section QuotaHandler.

Import VerifyWithLimit.

Lemma findTranscript_attempts (fl : Faults) (s : db) (vid : string)
    (g : list VerificationAttempt -> list VerificationAttempt) :
  findTranscript fl (set_verification_attempts g s) vid = findTranscript fl s vid.
Proof. reflexivity. Qed.

Lemma findTranscript_student (fl : Faults) (s : db) (vid : string)
    (tr : Transcript) (st : Student) (inst : Institution) :
  findTranscript fl s vid = Some (tr, st, inst) ->
  st ∈ students s /\ st_id st = tr_student_id tr
  /\ inst_id inst = institution_id st /\ tr_verification_id tr = vid.
Proof.
  unfold findTranscript. destruct (transcript_query_fails fl); [discriminate|].
  destruct (flat_map _ _) as [|x [|y l]] eqn:E; cbn [single]; try discriminate.
  intros [= ->].
  assert (Hin : In (tr, st, inst)
                  (flat_map (joined s)
                     (filter (fun tr => tr_verification_id tr = vid) (transcripts s))))
    by (rewrite E; now left).
  apply in_flat_map in Hin as (tr' & Htr' & Hin).
  apply list_elem_of_In, list_elem_of_filter in Htr' as [Hvid _].
  unfold joined in Hin. apply in_flat_map in Hin as (st' & Hst' & Hin).
  apply in_map_iff in Hin as (inst' & [= <- <- <-] & Hinst').
  apply list_elem_of_In, list_elem_of_filter in Hst' as [Hid Hst'].
  apply list_elem_of_In, list_elem_of_filter in Hinst' as [Hinst' _].
  auto.
Qed.

(** The handler past its two lookups. *)
Lemma serve_found (s : db) (b : Body) (clk : Clock) (fl : Faults)
    (tr : Transcript) (st : Student) (inst : Institution) :
  verificationId b <> EmptyString ->
  recentSuccess fl s (verificationId b) (at_check clk) = None ->
  findTranscript fl s (verificationId b) = Some (tr, st, inst) ->
  serve s {| is_options := false; body := Some b |} clk fl
  = let count := verification_count st in
    let limit := or_default (verification_limit st) 5 in
    if limit <=? count then
      (LimitExceeded count limit,
       log_attempt fl (attempt_row b (Some (st_id st)) false clk) s)
    else
      (Verified
         {| student_name := full_name st; student_email := email st;
            institution_name := inst_name inst;
            institution_email := inst_email inst;
            transcript := tr;
            verificationCount := count + 1;
            verificationLimit := limit;
            remainingVerifications := Z.max 0 (limit - (count + 1)) |},
       log_attempt fl (attempt_row b (Some (st_id st)) true clk)
         (if count_update_fails fl then s
          else set_students (update_count (st_id st) (count + 1)) s)).
Proof.
  intros Hvid Hrecent Hfound. unfold serve. cbn [is_options body].
  destruct (decide (verificationId b = EmptyString)); [contradiction|].
  rewrite Hrecent, Hfound, or_default_0. reflexivity.
Qed.

(** No success on [vid] in the five seconds before [now]: no duplicate. *)
Lemma recentSuccess_none (fl : Faults) (s : db) (vid : string) (now : Z) :
  (forall a, a ∈ verification_attempts s -> va_verification_id a = vid ->
             success a = true -> attempted_at a < timestamptz_of_ms (now - 5000)) ->
  recentSuccess fl s vid now = None.
Proof.
  intros H. unfold recentSuccess. destruct (recent_query_fails fl); [reflexivity|].
  apply find_none_all. intros a Ha. unfold recentAttempts in Ha.
  apply elem_of_take in Ha as (i & Ha & _).
  apply list_elem_of_lookup_2, list_elem_of_filter in Ha as [[Hv Hw] Ha].
  destruct (success a) eqn:E; [|reflexivity].
  specialize (H a Ha Hv E). lia.
Qed.

End QuotaHandler.

Section ResetHandler.

Import ResetVerificationCount.

Lemma reset_count_keeps_id (sid iid : string) (st : Student) :
  st_id (if decide (owned sid iid st) then zero_count st else st) = st_id st.
Proof. now destruct (decide _). Qed.

Lemma reset_count_keeps_institution (sid iid : string) (st : Student) :
  institution_id (if decide (owned sid iid st) then zero_count st else st)
  = institution_id st.
Proof. now destruct (decide _). Qed.

Lemma single_elem {A} (l : list A) (x : A) : single l = Some x -> l = [x].
Proof. destruct l as [|y [|z l]]; cbn; congruence. Qed.

(** An authenticated institution resetting one of its own students. *)
Lemma reset_done (s : db) (token user : string) (admin : Institution)
    (st : Student) (now : Z) :
  token <> EmptyString ->
  st_id st <> EmptyString ->
  sessions s !! token = Some user ->
  single (filter (fun i => inst_user_id i = user) (institutions s)) = Some admin ->
  single (filter (owned (st_id st) (inst_id admin)) (students s)) = Some st ->
  serve s (reset_request token (st_id st)) now no_faults
  = (ResetDone (st_id st) (full_name st) (email st) 0 (verification_limit st),
     set_verification_attempts
       (insert_row false (reset_row (st_id st) (inst_id admin) now))
       (set_students (reset_count (st_id st) (inst_id admin)) s)).
Proof.
  intros Htok Hsid Hsess Hadmin Hst. unfold serve, reset_request, no_faults.
  cbn [is_options authorization body institution_query_fails student_query_fails
       count_update_fails attempt_insert_fails].
  destruct token as [|c token]; [contradiction|]. cbn [or_string].
  destruct (decide (st_id st = EmptyString)); [contradiction|].
  rewrite Hsess, Hadmin, Hst. rewrite (single_elem _ _ Hst). reflexivity.
Qed.

End ResetHandler.

(** C10: when the update of [verification_count] fails on the consuming
    path, the handler still answers 200 with [verified] and
    [verificationCount] one above the count it read, and leaves the
    [students] table as it was, so the reported count is one above the stored
    count; it still records the attempt as successful: unless that insert
    fails too, one row is appended for the student and the identifier, with
    [success] set, stamped with the clock and carrying the address and user
    agent of the request. *)
Theorem update_failure_still_reports_success
    (s : db) (b : VerifyWithLimit.Body) (clk : VerifyWithLimit.Clock)
    (fl : VerifyWithLimit.Faults)
    (tr : Transcript) (st : Student) (inst : Institution) :
  VerifyWithLimit.verificationId b <> EmptyString ->
  VerifyWithLimit.recentSuccess fl s (VerifyWithLimit.verificationId b)
    (VerifyWithLimit.at_check clk) = None ->
  VerifyWithLimit.findTranscript fl s (VerifyWithLimit.verificationId b)
  = Some (tr, st, inst) ->
  verification_count st < or_default (verification_limit st) 5 ->
  VerifyWithLimit.count_update_fails fl = true ->
  let out := VerifyWithLimit.serve s (verify_request b) clk fl in
  (exists v, fst out = VerifyWithLimit.Verified v
             /\ VerifyWithLimit.verificationCount v = verification_count st + 1)
  /\ VerifyWithLimit.status (fst out) = 200
  /\ students (snd out) = students s
  /\ st ∈ students (snd out)
  /\ (VerifyWithLimit.attempt_insert_fails fl = false ->
      exists row,
        verification_attempts (snd out) = verification_attempts s ++ [row]
        /\ success row = true
        /\ va_student_id row = Some (st_id st)
        /\ va_verification_id row = VerifyWithLimit.verificationId b
        /\ attempted_at row = 1000 * VerifyWithLimit.at_insert clk
        /\ va_ip_address row = VerifyWithLimit.ipAddress b
        /\ va_user_agent row = VerifyWithLimit.userAgent b)
  /\ (VerifyWithLimit.attempt_insert_fails fl = true ->
      verification_attempts (snd out) = verification_attempts s).
Proof.
  intros Hvid Hrecent Hfound Hlt Hfail out. subst out. unfold verify_request.
  rewrite (serve_found s b clk fl tr st inst Hvid Hrecent Hfound). cbv zeta.
  destruct (Z.leb_spec (or_default (verification_limit st) 5) (verification_count st));
    [lia|].
  rewrite Hfail. cbn [fst snd].
  split; [eexists; split; reflexivity|].
  split; [reflexivity|].
  split; [reflexivity|].
  split; [apply (findTranscript_student fl s _ tr st inst Hfound)|].
  unfold VerifyWithLimit.log_attempt.
  cbn [verification_attempts set_verification_attempts].
  split; intros ->; cbn [insert_row]; [|reflexivity].
  eexists. split; [reflexivity|]. repeat split.
Qed.

(** C1: with [used = limit = 5] and no successful attempt on the identifier
    in the five seconds before the call, the call is refused, reports 5 of 5
    and leaves the [students] table untouched; the institution's reset puts
    the counter at 0; the next call is accepted and reports 1 of 5, and once
    its update goes through the stored counter is 1. *)
Theorem quota_exhausted_reset_consume
    (s : db) (b : VerifyWithLimit.Body)
    (clk1 clk3 : VerifyWithLimit.Clock) (fl1 fl3 : VerifyWithLimit.Faults)
    (tr : Transcript) (st : Student) (inst admin : Institution)
    (token user : string) (now : Z) :
  let vid := VerifyWithLimit.verificationId b in
  vid <> EmptyString ->
  vid <> ResetVerificationCount.RESET_BY_INSTITUTION ->
  (forall a, a ∈ verification_attempts s -> va_verification_id a = vid ->
             success a = true ->
             attempted_at a < 1000 * (VerifyWithLimit.at_check clk1 - 5000)) ->
  VerifyWithLimit.at_check clk1 <= VerifyWithLimit.at_check clk3 ->
  VerifyWithLimit.findTranscript fl1 s vid = Some (tr, st, inst) ->
  VerifyWithLimit.transcript_query_fails fl3 = false ->
  verification_count st = 5 ->
  verification_limit st = 5 ->
  token <> EmptyString ->
  st_id st <> EmptyString ->
  sessions s !! token = Some user ->
  single (filter (fun i => inst_user_id i = user) (institutions s)) = Some admin ->
  single (filter (ResetVerificationCount.owned (st_id st) (inst_id admin)) (students s))
  = Some st ->
  let r1 := VerifyWithLimit.serve s (verify_request b) clk1 fl1 in
  let r2 := ResetVerificationCount.serve (snd r1) (reset_request token (st_id st))
              now no_faults in
  let r3 := VerifyWithLimit.serve (snd r2) (verify_request b) clk3 fl3 in
  fst r1 = VerifyWithLimit.LimitExceeded 5 5
  /\ students (snd r1) = students s
  /\ fst r2 = ResetVerificationCount.ResetDone (st_id st) (full_name st) (email st) 0 5
  /\ (exists st0, VerifyWithLimit.findTranscript fl3 (snd r2) vid = Some (tr, st0, inst)
                  /\ verification_count st0 = 0 /\ verification_limit st0 = 5)
  /\ (exists v, fst r3 = VerifyWithLimit.Verified v
                /\ VerifyWithLimit.verificationCount v = 1
                /\ VerifyWithLimit.verificationLimit v = 5
                /\ VerifyWithLimit.remainingVerifications v = 4)
  /\ (VerifyWithLimit.count_update_fails fl3 = false ->
      exists st1, VerifyWithLimit.findTranscript fl3 (snd r3) vid = Some (tr, st1, inst)
                  /\ verification_count st1 = 1 /\ verification_limit st1 = 5).
Proof.
  intros vid Hvid Hreset Hnosucc Hclock Hfound Hq3 Hcount Hlimit Htok Hsid Hsess Hadmin
         Hst r1 r2 r3.
  assert (Hr1 : r1 = (VerifyWithLimit.LimitExceeded 5 5,
                      VerifyWithLimit.log_attempt fl1
                        (VerifyWithLimit.attempt_row b (Some (st_id st)) false clk1) s)).
  { subst r1. unfold verify_request.
    rewrite (serve_found s b clk1 fl1 tr st inst Hvid
               (recentSuccess_none fl1 s vid _ Hnosucc) Hfound).
    cbv zeta. rewrite Hcount, Hlimit. reflexivity. }
  assert (Hr2 : r2 = (ResetVerificationCount.ResetDone (st_id st) (full_name st)
                        (email st) 0 5,
                      set_verification_attempts
                        (insert_row false
                           (ResetVerificationCount.reset_row (st_id st) (inst_id admin) now))
                        (set_students
                           (ResetVerificationCount.reset_count (st_id st) (inst_id admin))
                           (snd r1)))).
  { subst r2. rewrite <- Hlimit.
    apply (reset_done (snd r1) token user admin st now); auto;
      rewrite Hr1; assumption. }
  assert (Howned : ResetVerificationCount.owned (st_id st) (inst_id admin) st).
  { apply single_elem in Hst.
    assert (Hin : st ∈ filter (ResetVerificationCount.owned (st_id st) (inst_id admin))
                         (students s)) by (rewrite Hst; constructor).
    now apply list_elem_of_filter in Hin as [? _]. }
  assert (Hfound2 : VerifyWithLimit.findTranscript fl3 (snd r2) vid
                    = Some (tr, ResetVerificationCount.zero_count st, inst)).
  { rewrite Hr2, Hr1. cbn [snd]. rewrite findTranscript_attempts.
    unfold ResetVerificationCount.reset_count.
    erewrite findTranscript_map.
    - destruct (decide _); [reflexivity | contradiction].
    - intros x. apply reset_count_keeps_id.
    - intros x. apply reset_count_keeps_institution.
    - unfold VerifyWithLimit.log_attempt. rewrite findTranscript_attempts.
      revert Hfound. unfold VerifyWithLimit.findTranscript. rewrite Hq3.
      now destruct (VerifyWithLimit.transcript_query_fails fl1). }
  assert (Hrecent3 : VerifyWithLimit.recentSuccess fl3 (snd r2) vid
                       (VerifyWithLimit.at_check clk3) = None).
  { apply recentSuccess_none. intros a Ha Hva Hsucc.
    rewrite Hr2, Hr1 in Ha. cbn [snd verification_attempts set_verification_attempts
                                 set_students VerifyWithLimit.log_attempt] in Ha.
    apply elem_of_insert_row in Ha as [-> | Ha].
    - cbn in Hva. symmetry in Hva. contradiction.
    - apply elem_of_insert_row in Ha as [-> | Ha]; [discriminate Hsucc|].
      specialize (Hnosucc a Ha Hva Hsucc). unfold timestamptz_of_ms. lia. }
  assert (Hr3 : r3 = (VerifyWithLimit.Verified
                        {| VerifyWithLimit.student_name := full_name st;
                           VerifyWithLimit.student_email := email st;
                           VerifyWithLimit.institution_name := inst_name inst;
                           VerifyWithLimit.institution_email := inst_email inst;
                           VerifyWithLimit.transcript := tr;
                           VerifyWithLimit.verificationCount := 1;
                           VerifyWithLimit.verificationLimit := 5;
                           VerifyWithLimit.remainingVerifications := 4 |},
                      VerifyWithLimit.log_attempt fl3
                        (VerifyWithLimit.attempt_row b (Some (st_id st)) true clk3)
                        (if VerifyWithLimit.count_update_fails fl3 then snd r2
                         else set_students
                                (VerifyWithLimit.update_count (st_id st) 1) (snd r2)))).
  { subst r3. unfold verify_request.
    rewrite (serve_found (snd r2) b clk3 fl3 tr (ResetVerificationCount.zero_count st)
               inst Hvid Hrecent3 Hfound2).
    cbv zeta. cbn [ResetVerificationCount.zero_count verification_count
                   verification_limit st_id full_name email].
    rewrite Hlimit. reflexivity. }
  split; [now rewrite Hr1|].
  split; [now rewrite Hr1|].
  split; [now rewrite Hr2|].
  split; [eexists; split; [exact Hfound2|]; split; [reflexivity | exact Hlimit]|].
  split; [rewrite Hr3; eexists; repeat split|].
  intros Hok. rewrite Hr3, Hok. cbn [snd]. unfold VerifyWithLimit.log_attempt.
  rewrite findTranscript_attempts. unfold VerifyWithLimit.update_count.
  eexists. split.
  - apply findTranscript_map; [| |exact Hfound2]; intros x; now destruct (decide _).
  - cbn [st_id ResetVerificationCount.zero_count].
    destruct (decide _); [|contradiction].
    split; [reflexivity | exact Hlimit].
Qed.

Lemma update_failure_still_reports_success_witness :
  let out := VerifyWithLimit.serve (sample_db 2) (verify_request sample_body)
               (clock_at 10000) (verify_faults true) in
  (exists v, fst out = VerifyWithLimit.Verified v
             /\ VerifyWithLimit.verificationCount v = 2 + 1)
  /\ students (snd out) = [sample_student 2]
  /\ exists row,
       verification_attempts (snd out) = [row]
       /\ success row = true
       /\ va_student_id row = Some "stu-1"%string
       /\ va_verification_id row = "VT-1-a"%string
       /\ attempted_at row = 10000000.
Proof.
  destruct (update_failure_still_reports_success (sample_db 2) sample_body
              (clock_at 10000) (verify_faults true)
              sample_transcript (sample_student 2) sample_institution)
    as (H1 & _ & H3 & _ & H5 & _).
  - discriminate.
  - vm_compute. reflexivity.
  - vm_compute. reflexivity.
  - vm_compute. reflexivity.
  - reflexivity.
  - split; [exact H1|]. split; [exact H3|].
    destruct (H5 eq_refl) as (row & Hrow & Hs & Hst & Hv & Hat & _).
    exists row. repeat split; assumption.
Defined.

(** The store after five verifications of the sample transcript, ten seconds
    apart: the quota of the student is used up by recorded successes.  Six
    seconds after the last of them a further call is refused; the
    institution resets the counter and the call after that is accepted. *)
Lemma quota_exhausted_reset_consume_witness :
  let s := snd (verify_at (sample_db 0) [0; 10000; 20000; 30000; 40000]) in
  let r1 := VerifyWithLimit.serve s (verify_request sample_body)
              (clock_at 46000) (verify_faults false) in
  let r2 := ResetVerificationCount.serve (snd r1) (reset_request "Bearer t1" "stu-1")
              50000 no_faults in
  let r3 := VerifyWithLimit.serve (snd r2) (verify_request sample_body)
              (clock_at 60000) (verify_faults false) in
  length (filter (fun a => success a = true) (verification_attempts s)) = 5%nat
  /\ fst r1 = VerifyWithLimit.LimitExceeded 5 5
  /\ students (snd r1) = [sample_student 5]
  /\ fst r2 = ResetVerificationCount.ResetDone "stu-1" "Ada" "ada@example.edu" 0 5
  /\ (exists st0, VerifyWithLimit.findTranscript (verify_faults false) (snd r2) "VT-1-a"
                  = Some (sample_transcript, st0, sample_institution)
                  /\ verification_count st0 = 0)
  /\ (exists v, fst r3 = VerifyWithLimit.Verified v
                /\ VerifyWithLimit.verificationCount v = 1
                /\ VerifyWithLimit.verificationLimit v = 5
                /\ VerifyWithLimit.remainingVerifications v = 4)
  /\ exists st1, VerifyWithLimit.findTranscript (verify_faults false) (snd r3) "VT-1-a"
                 = Some (sample_transcript, st1, sample_institution)
                 /\ verification_count st1 = 1.
Proof.
  intros s.
  destruct (quota_exhausted_reset_consume s sample_body
              (clock_at 46000) (clock_at 60000) (verify_faults false)
              (verify_faults false) sample_transcript (sample_student 5)
              sample_institution sample_institution "Bearer t1" "user-1" 50000)
    as (H1 & H2 & H3 & H4 & H5 & H6).
  - discriminate.
  - discriminate.
  - intros a Ha _ _. vm_compute in Ha.
    repeat (apply elem_of_cons in Ha as [->|Ha]; [vm_compute; reflexivity|]).
    inversion Ha.
  - vm_compute. discriminate.
  - vm_compute. reflexivity.
  - reflexivity.
  - reflexivity.
  - reflexivity.
  - discriminate.
  - discriminate.
  - vm_compute. reflexivity.
  - vm_compute. reflexivity.
  - vm_compute. reflexivity.
  - split; [vm_compute; reflexivity|].
    split; [exact H1|]. split; [rewrite H2; vm_compute; reflexivity|].
    split; [exact H3|].
    split; [destruct H4 as (st0 & Hf & Hc & _); exists st0; split; assumption|].
    split; [exact H5|].
    destruct (H6 eq_refl) as (st1 & Hf & Hc & _). exists st1. split; assumption.
Defined.

(** ** Duplicate suppression *)

Section Duplicates.

Import VerifyWithLimit.

Lemma serve_duplicate (s : db) (b : Body) (clk : Clock) (fl : Faults)
    (a : VerificationAttempt) :
  verificationId b <> EmptyString ->
  recentSuccess fl s (verificationId b) (at_check clk) = Some a ->
  serve s (verify_request b) clk fl = (AlreadyCompleted, s).
Proof.
  intros Hvid Hrecent. unfold serve, verify_request. cbn [is_options body].
  destruct (decide (verificationId b = EmptyString)); [contradiction|].
  now rewrite Hrecent.
Qed.

Lemma find_some_app {A} (f : A -> bool) (l : list A) (x : A) :
  f x = true -> exists y, List.find f (l ++ [x]) = Some y.
Proof.
  intros Hx. induction l as [|z l IH]; cbn.
  - rewrite Hx. eauto.
  - destruct (f z); eauto.
Qed.

(** The repeat of a successful call is answered from the recorded attempt
    when fewer than five attempts on the identifier precede it in the
    five-second window. *)
Lemma duplicate_suppressed (s s1 : db) (b : Body) (clk1 clk2 : Clock)
    (fl1 fl2 : Faults) (v : Verification) :
  serve s (verify_request b) clk1 fl1 = (Verified v, s1) ->
  attempt_insert_fails fl1 = false ->
  recent_query_fails fl2 = false ->
  at_check clk2 - 5000 <= at_insert clk1 ->
  (length (filter (recent (verificationId b) (at_check clk2))
                  (verification_attempts s)) < 5)%nat ->
  serve s1 (verify_request b) clk2 fl2 = (AlreadyCompleted, s1).
Proof.
  intros Hfirst Hins Hq Hwin Hfew.
  assert (Hvid : verificationId b <> EmptyString).
  { intros E. unfold serve, verify_request in Hfirst. cbn [is_options body] in Hfirst.
    destruct (decide (verificationId b = EmptyString)); [discriminate | contradiction]. }
  assert (Hrows : exists st,
             verification_attempts s1
             = verification_attempts s ++ [attempt_row b (Some st) true clk1]).
  { unfold serve, verify_request in Hfirst. cbn [is_options body] in Hfirst.
    destruct (decide (verificationId b = EmptyString)); [contradiction|].
    destruct (recentSuccess fl1 s _ _); [discriminate|].
    destruct (findTranscript fl1 s _) as [[[tr st] inst]|]; [|discriminate].
    destruct (_ <=? _); [discriminate|].
    injection Hfirst as _ <-. exists (st_id st).
    unfold log_attempt. rewrite Hins.
    destruct (count_update_fails fl1); reflexivity. }
  destruct Hrows as [st Hrows].
  set (P := recent (verificationId b) (at_check clk2)) in *.
  destruct (find_some_app success (filter P (verification_attempts s))
              (attempt_row b (Some st) true clk1) eq_refl) as [y Hy].
  apply (serve_duplicate s1 b clk2 fl2 y Hvid).
  unfold recentSuccess, recentAttempts. rewrite Hq, Hrows. fold P.
  rewrite filter_app, filter_cons_True, filter_nil.
  - rewrite take_ge; [exact Hy|]. rewrite length_app. simpl. lia.
  - split; [reflexivity|]. unfold attempt_row, timestamptz_of_ms.
    cbn [attempted_at]. lia.
Qed.

End Duplicates.

(** C4 at its failing input.  Five calls, half a second apart, are refused
    for the exhausted quota, the institution resets the counter, the next
    call succeeds, and its repeat half a second later succeeds again: the
    five refused attempts fill the [limit(5)] of the recent-attempts query,
    so the recorded success is not among the rows inspected.  Two successful
    attempt rows are written and the quota is incremented twice. *)
Theorem duplicate_hidden_behind_five_attempts :
  let s5 := snd (verify_at (sample_db 5) [1000; 1500; 2000; 2500; 3000]) in
  let s6 := snd (ResetVerificationCount.serve s5 (reset_request "Bearer t1" "stu-1")
                   3500 no_faults) in
  let out := verify_at s6 [4000; 4500] in
  map VerifyWithLimit.status (fst out) = [200; 200]
  /\ map verification_count (students (snd out)) = [2]
  /\ length (filter (fun a => va_verification_id a = "VT-1-a"%string /\ success a = true)
               (verification_attempts (snd out))) = 2%nat.
Proof. vm_compute. repeat split. Qed.

(** On a store without earlier attempts the repeat of a successful call is
    answered 429 and nothing is written. *)
Example duplicate_suppressed_on_fresh_store :
  let out := verify_at (sample_db 0) [1006; 1007] in
  fst out = [VerifyWithLimit.Verified
               {| VerifyWithLimit.student_name := "Ada";
                  VerifyWithLimit.student_email := "ada@example.edu";
                  VerifyWithLimit.institution_name := "Alma Mater";
                  VerifyWithLimit.institution_email := "registrar@example.edu";
                  VerifyWithLimit.transcript := sample_transcript;
                  VerifyWithLimit.verificationCount := 1;
                  VerifyWithLimit.verificationLimit := 5;
                  VerifyWithLimit.remainingVerifications := 4 |};
             VerifyWithLimit.AlreadyCompleted]
  /\ map verification_count (students (snd out)) = [1]
  /\ length (verification_attempts (snd out)) = 1%nat.
Proof. vm_compute. repeat split. Qed.

(** ** Audit events written by the verification handlers *)

(** C3, as the code has it.  [verify-with-limit] writes attempt rows only:
    no call of it, whatever its outcome, adds an audit event.
    [verify-transcript] adds one audit event, tagged with the transcript and
    its verified status, exactly when it answers with a found transcript and
    the insert succeeds; every other outcome (malformed identifier, rate
    limited, database error, identifier not found) adds none. *)
Theorem audit_events_per_verification_call :
  (forall s req clk fl,
      audit_logs (snd (VerifyWithLimit.serve s req clk fl)) = audit_logs s)
  /\ (forall s req clk fl,
        let out := VerifyTranscript.serve s req clk fl in
        match fst out with
        | VerifyTranscript.Found r =>
            if VerifyTranscript.audit_insert_fails fl
            then audit_logs (snd out) = audit_logs s
            else exists ev vid ip,
                audit_logs (snd out) = audit_logs s ++ [ev]
                /\ log_action ev = "transcript_verification"%string
                /\ log_resource_type ev = transcript_r
                /\ log_resource_id ev = Some (VerifyTranscript.transcriptId r)
                /\ log_details ev
                   = JObj [ ("verification_id", JStr vid); ("ip_address", JStr ip);
                            ("verified_status", JBool (VerifyTranscript.is_verified r))
                          ]%string
        | _ => audit_logs (snd out) = audit_logs s
        end).
Proof.
  split.
  - intros s req clk fl. unfold VerifyWithLimit.serve.
    repeat match goal with
           | |- context [match ?x with _ => _ end] => destruct x
           end; reflexivity.
  - intros s req clk fl out. subst out. unfold VerifyTranscript.serve.
    destruct (VerifyTranscript.is_options req); [reflexivity|].
    destruct (VerifyTranscript.body req) as [b|]; [|reflexivity].
    destruct (or_string (VerifyTranscript.verification_id b) None) as [vid|];
      [|reflexivity].
    destruct (negb _); [reflexivity|].
    destruct (VerifyTranscript.rate_limit_fails fl); [reflexivity|].
    destruct (RateLimiter.check_verification_rate_limit _ _ _ _) as [ok limits].
    destruct ok; [|reflexivity]. cbn [negb].
    destruct (VerifyTranscript.transcript_query_fails fl); [reflexivity|].
    destruct (maybeSingle _) as [[tr|]|]; try reflexivity.
    cbn [fst snd].
    destruct (VerifyTranscript.audit_insert_fails fl); [reflexivity|].
    eexists _, vid, _. cbn [audit_logs set_audit_logs set_verification_rate_limits].
    unfold VerifyTranscript.log_audit_event. split; [reflexivity|].
    repeat split.
Qed.

(** C3, as stated, fails: a verification and its repeat a millisecond later,
    the second suppressed as a duplicate, are two calls and leave no audit
    event. *)
Lemma suppressed_duplicate_leaves_no_audit_event :
  let out := verify_at (sample_db 0) [1006; 1007] in
  map VerifyWithLimit.status (fst out) = [200; 429]
  /\ fst out !! 1%nat = Some VerifyWithLimit.AlreadyCompleted
  /\ length (audit_logs (snd out)) = 0%nat.
Proof. vm_compute. repeat split. Qed.

(** ** The pending events and the latest batch *)

Section Pending.

Import BlockchainAudit.




Lemma latestBatch_latest (rows : list AuditBatch) (last : AuditBatch) :
  latestBatch rows = Some last ->
  last ∈ rows /\ forall b, b ∈ rows -> batch_created_at b <= batch_created_at last.
Proof.
  revert last. induction rows as [|b rest IH]; intros last; cbn; [discriminate|].
  destruct (latestBatch rest) as [later|] eqn:E.
  - destruct (IH later eq_refl) as [Hin Hmax].
    destruct (Z.ltb_spec (batch_created_at b) (batch_created_at later));
      intros [= <-]; split.
    + now constructor.
    + intros x [->|Hx]%elem_of_cons; [lia | now apply Hmax].
    + constructor.
    + intros x [->|Hx]%elem_of_cons; [lia|]. specialize (Hmax x Hx). lia.
  - intros [= <-]. destruct rest as [|c rest]; [|cbn in E; destruct (latestBatch rest);
      [destruct (_ <? _)|]; discriminate].
    split; [constructor|]. intros x [->|Hx]%elem_of_cons; [lia | inversion Hx].
Qed.

End Pending.

(** * Further properties of the handlers *)

(** ** The shape of the hashes *)

Section HashShape.

Import Sha256.

Lemma be_bytes_length (n : nat) (x : Z) : length (be_bytes n x) = n.
Proof. induction n as [|n IH]; cbn; [reflexivity | now rewrite IH]. Qed.

Lemma be_bytes_range (n : nat) (x b : Z) : In b (be_bytes n x) -> 0 <= b < 256.
Proof.
  induction n as [|n IH]; cbn; [tauto|].
  intros [<-|H]; [apply Z.mod_pos_bound; lia | now apply IH].
Qed.

Lemma compress_length (h block : list Z) :
  length h = 8%nat -> length (compress h block) = 8%nat.
Proof.
  intros H. unfold compress. rewrite length_map, length_combine, H. reflexivity.
Qed.

Lemma blocks_length (n : nat) (h bs : list Z) :
  length h = 8%nat -> length (blocks n h bs) = 8%nat.
Proof.
  revert h bs. induction n as [|n IH]; intros h bs H; cbn; [exact H|].
  apply IH, compress_length, H.
Qed.

Lemma flat_map_be_bytes_length (ws : list Z) :
  length (flat_map (be_bytes 4) ws) = (4 * length ws)%nat.
Proof.
  induction ws as [|w ws IH]; [reflexivity|].
  cbn [flat_map]. rewrite length_app, be_bytes_length, IH. cbn [length]. lia.
Qed.

Lemma digest_length (msg : list Z) : length (digest msg) = 32%nat.
Proof.
  unfold digest. rewrite flat_map_be_bytes_length, blocks_length; reflexivity.
Qed.

Lemma digest_range (msg : list Z) (b : Z) : In b (digest msg) -> 0 <= b < 256.
Proof.
  unfold digest. intros H. apply in_flat_map in H as (w & _ & H).
  exact (be_bytes_range _ _ _ H).
Qed.

End HashShape.

Lemma hex_digit_lower (d : Z) : 0 <= d < 16 -> is_lower_hex (hex_digit d) = true.
Proof.
  intros H.
  assert (Hd : d = 0 \/ d = 1 \/ d = 2 \/ d = 3 \/ d = 4 \/ d = 5 \/ d = 6 \/ d = 7
               \/ d = 8 \/ d = 9 \/ d = 10 \/ d = 11 \/ d = 12 \/ d = 13 \/ d = 14
               \/ d = 15) by lia.
  repeat (destruct Hd as [->|Hd]; [reflexivity|]). subst d. reflexivity.
Qed.

Lemma all_chars_app (p : ascii -> bool) (a b : string) :
  all_chars p (a ++ b) = all_chars p a && all_chars p b.
Proof.
  induction a as [|c a IH]; [reflexivity|].
  change (p c && all_chars p (a ++ b) = p c && all_chars p a && all_chars p b).
  now rewrite IH, andb_assoc.
Qed.

Lemma string_length_app (a b : string) :
  String.length (a ++ b) = (String.length a + String.length b)%nat.
Proof.
  induction a as [|c a IH]; [reflexivity|].
  change (S (String.length (a ++ b)) = S (String.length a + String.length b)).
  now rewrite IH.
Qed.

Lemma hex_of_bytes_cons (b : Z) (bs : list Z) :
  hex_of_bytes (b :: bs)
  = String (hex_digit (b / 16)) (String (hex_digit (b mod 16)) (hex_of_bytes bs)).
Proof. reflexivity. Qed.

Lemma hex_of_bytes_shape (bs : list Z) :
  (forall b, In b bs -> 0 <= b < 256) ->
  String.length (hex_of_bytes bs) = (2 * length bs)%nat
  /\ all_chars is_lower_hex (hex_of_bytes bs) = true.
Proof.
  induction bs as [|b bs IH]; intros H; [split; reflexivity|].
  destruct IH as [IHl IHc]; [intros x Hx; apply H; now right|].
  assert (Hb : 0 <= b < 256) by (apply H; now left).
  rewrite hex_of_bytes_cons. cbn [String.length all_chars].
  rewrite IHl, IHc, !hex_digit_lower.
  - split; [cbn [length]; lia | reflexivity].
  - apply Z.mod_pos_bound. lia.
  - split; [apply Z.div_pos; lia | apply Z.div_lt_upper_bound; lia].
Qed.

Lemma sha256_hex_is_hash (data : string) : hash_shaped (sha256_hex data).
Proof.
  unfold hash_shaped, sha256_hex.
  destruct (hex_of_bytes_shape (Sha256.digest (bytes_of_string data))
              (digest_range _)) as [Hl Hc].
  rewrite Hl, digest_length. split; [reflexivity | exact Hc].
Qed.

(** X1: the hashes the code computes with [await crypto.subtle.digest] are
    sixty-four characters out of [0-9a-f], whatever was hashed: the current
    hash of every block [createAuditChain] returns, and the batch id of the
    simulated anchor. *)
Theorem sha256_hex_shape (subtle : SubtleCrypto) (events : list AuditEvent)
    (previous : string) (now : Z) (chain : AuditChain)
    (metadata : BatchMetadata) :
  createAuditChain subtle events previous now = Returns chain ->
  hash_shaped (currentHash chain)
  /\ exists batchId, recordAuditBatch None chain metadata = Some batchId
                     /\ hash_shaped batchId.
Proof.
  intros H.
  destruct (createAuditChain_returns _ _ _ _ _ H) as (_ & _ & root & _ & _ & _ & ->).
  split; [apply sha256_hex_is_hash|].
  eexists. split; [reflexivity | apply sha256_hex_is_hash].
Qed.

Lemma sha256_hex_shape_witness :
  exists chain,
    createAuditChain web_crypto [] genesis_hash 1700000002000 = Returns chain
    /\ hash_shaped (currentHash chain).
Proof.
  eassert (E : createAuditChain web_crypto [] genesis_hash 1700000002000 = Returns _)
    by reflexivity.
  eexists. split; [exact E|].
  apply (sha256_hex_shape _ _ _ _ _ (BlockchainAudit.batchMetadata []) E).
Defined.

(** ** Merkle roots and proofs *)

Lemma list_pair_ind {A} (P : list A -> Prop) :
  P [] -> (forall x, P [x]) -> (forall a b rest, P rest -> P (a :: b :: rest)) ->
  forall l, P l.
Proof.
  intros H0 H1 H2 l.
  enough (H : P l /\ forall a, P (a :: l)) by apply H.
  induction l as [|b rest [IH1 IH2]]; split; auto.
Qed.

Section MerkleProofs.

Import MerkleTree MerkleProof.

Variable subtle : SubtleCrypto.

Lemma siblings_below (level : list string) :
  forall k cur, cur < k -> siblings k level cur = [].
Proof.
  induction level as [| x | a b rest IH] using list_pair_ind; intros k cur H;
    [reflexivity.. |].
  cbn [siblings].
  destruct (Z.eqb_spec k cur); [lia|]. destruct (Z.eqb_spec (k + 1) cur); [lia|].
  apply IH. lia.
Qed.

Lemma siblings_spec (level : list string) :
  forall k (j : nat), (j < length level)%nat ->
    siblings k level (k + Z.of_nat j)
    = if Nat.even j then
        if (S j <? length level)%nat then [nth (S j) level EmptyString] else []
      else [nth (j - 1) level EmptyString].
Proof.
  induction level as [| x | a b rest IH] using list_pair_ind; intros k j Hj.
  - cbn in Hj. lia.
  - cbn in Hj. assert (j = 0%nat) by lia. subst j. reflexivity.
  - cbn [siblings]. destruct j as [|[|j]].
    + rewrite Z.add_0_r, Z.eqb_refl, siblings_below by lia. reflexivity.
    + destruct (Z.eqb_spec k (k + Z.of_nat 1)); [lia|].
      rewrite Z.eqb_refl, siblings_below by lia. reflexivity.
    + destruct (Z.eqb_spec k (k + Z.of_nat (S (S j)))); [lia|].
      destruct (Z.eqb_spec (k + 1) (k + Z.of_nat (S (S j)))); [lia|].
      replace (k + Z.of_nat (S (S j))) with (k + 2 + Z.of_nat j) by lia.
      cbn [length] in Hj. rewrite IH by lia.
      change (Nat.even (S (S j))) with (Nat.even j).
      change (S (S (S j)) <? length (a :: b :: rest))%nat
        with (S j <? length rest)%nat.
      destruct (Nat.even j) eqn:E; [reflexivity|].
      destruct j as [|j]; [discriminate E|]. cbn. now rewrite Nat.sub_0_r.
Qed.

(** Where the node at position [j] of a level goes in the next one. *)
Lemma nextLevel_nth (level : list string) :
  forall (next : list string) (j : nat),
    nextLevel subtle level = Returns next -> (j < length level)%nat ->
    if Nat.even j then
      if (S j <? length level)%nat
      then pairwiseHash subtle (nth j level EmptyString) (nth (S j) level EmptyString)
           = Returns (nth (j / 2) next EmptyString)
      else nth (j / 2) next EmptyString = nth j level EmptyString
    else pairwiseHash subtle (nth (j - 1) level EmptyString) (nth j level EmptyString)
         = Returns (nth (j / 2) next EmptyString).
Proof.
  induction level as [| x | a b rest IH] using list_pair_ind; intros next j Hn Hj.
  - cbn in Hj. lia.
  - cbn in Hj. assert (j = 0%nat) by lia. subst j.
    injection Hn as <-. reflexivity.
  - cbn [nextLevel] in Hn.
    apply bind_returns in Hn as (parent & Hp & Hn).
    apply bind_returns in Hn as (more & Hm & [= <-]).
    destruct j as [|[|j]]; [exact Hp | exact Hp |].
    replace (S (S j) / 2)%nat with (S (j / 2)).
    2:{ replace (S (S j)) with (j + 1 * 2)%nat by lia.
        rewrite Nat.div_add by lia. lia. }
    cbn [length] in Hj. specialize (IH more j Hm ltac:(lia)).
    change (Nat.even (S (S j))) with (Nat.even j).
    change (S (S (S j)) <? length (a :: b :: rest))%nat with (S j <? length rest)%nat.
    cbn [nth].
    destruct (Nat.even j) eqn:E; [exact IH|].
    destruct j as [|j]; [discriminate E|].
    cbn [Nat.sub] in *. rewrite Nat.sub_0_r in IH. exact IH.
Qed.

Lemma div2_lt (j n : nat) : (j < n)%nat -> (j / 2 < (n + 1) / 2)%nat.
Proof.
  intros H. apply Nat.Div0.div_lt_upper_bound.
  pose proof (Nat.Div0.div_mod (n + 1) 2). pose proof (Nat.mod_upper_bound (n + 1) 2).
  lia.
Qed.

(** [getProof] and [getRoot] run the same passes: one throws exactly when
    the other does. *)
Lemma proofLoop_reduce (fuel : nat) :
  forall (level : list string) (index : Z),
    match reduce subtle fuel level, proofLoop subtle fuel level index with
    | Returns _, Returns _ => True
    | Throws m, Throws m' => m = m'
    | Returns _, Throws _ | Throws _, Returns _ => False
    end.
Proof.
  induction fuel as [|fuel IH]; intros level index; [exact I|].
  cbn [reduce proofLoop]. destruct (1 <? length level)%nat; [|exact I].
  destruct (nextLevel subtle level) as [next|m]; [|reflexivity]. cbn [bind].
  specialize (IH next (index / 2)).
  destruct (reduce subtle fuel next), (proofLoop subtle fuel next (index / 2));
    exact IH.
Qed.

Lemma rootFromProof_reduce (fuel : nat) :
  forall (level top proof : list string) (j : nat),
    (length level <= S fuel)%nat -> (j < length level)%nat ->
    reduce subtle fuel level = Returns top ->
    proofLoop subtle fuel level (Z.of_nat j) = Returns proof ->
    rootFromProof subtle fuel (length level) j (nth j level EmptyString) proof
    = Returns (nth 0 top EmptyString).
Proof.
  induction fuel as [|fuel IH]; intros level top proof j Hlen Hj Hr Hp.
  - assert (j = 0%nat) by lia. subst j. injection Hr as <-. reflexivity.
  - cbn [rootFromProof proofLoop reduce] in *.
    destruct (Nat.ltb_spec 1 (length level)) as [Hlt|Hge].
    + apply bind_returns in Hr as (next & Hnext & Hr).
      rewrite Hnext in Hp. cbn [bind] in Hp.
      apply bind_returns in Hp as (above & Habove & [= <-]).
      pose proof (nextLevel_length subtle _ _ Hnext) as Hn.
      assert (Hlen' : (length next <= S fuel)%nat)
        by (rewrite Hn; now apply half_le).
      assert (Hj' : (j / 2 < length next)%nat) by (rewrite Hn; now apply div2_lt).
      specialize (IH next top above (j / 2)%nat Hlen' Hj' Hr).
      rewrite Nat2Z.inj_div in IH. change (Z.of_nat 2) with 2 in IH.
      specialize (IH Habove). rewrite Hn in IH.
      pose proof (nextLevel_nth level next j Hnext Hj) as Hnth.
      pose proof (siblings_spec level 0 j Hj) as Hs. rewrite Z.add_0_l in Hs.
      rewrite Hs. clear Hs.
      destruct (Nat.even j).
      * destruct (S j <? length level)%nat.
        -- cbn [app]. rewrite Hnth. exact IH.
        -- cbn [app]. rewrite <- Hnth. exact IH.
      * cbn [app]. rewrite Hnth. exact IH.
    + assert (j = 0%nat) by lia. subst j. injection Hr as <-. reflexivity.
Qed.

Lemma proofLoop_outside (fuel : nat) :
  forall (level proof : list string) (index : Z),
    index < 0 -> proofLoop subtle fuel level index = Returns proof -> proof = [].
Proof.
  induction fuel as [|fuel IH]; intros level proof index Hneg; cbn [proofLoop].
  - now intros [= <-].
  - destruct (1 <? length level)%nat; [|now intros [= <-]].
    intros H. apply bind_returns in H as (next & _ & H).
    apply bind_returns in H as (above & Habove & [= <-]).
    rewrite siblings_below by lia. cbn [app].
    apply (IH next above (index / 2)); [|exact Habove].
    apply Z.div_lt_upper_bound; lia.
Qed.

End MerkleProofs.

(** X2: what the tree does on the Web Crypto runtime, where
    [crypto.subtle] has no [digestSync].  Every hash throws the
    [TypeError]; so the constructor returns for no data only, and
    [getRoot] and [getProof] return on at most one leaf only. *)
Theorem merkle_tree_needs_digestSync (subtle : SubtleCrypto) :
  digestSync subtle = None ->
  (forall data, MerkleTree.hash subtle data = Throws not_a_function)
  /\ (forall data,
        MerkleTree.make subtle data
        = match data with
          | [] => Returns (MerkleTree.Build [])
          | _ :: _ => Throws not_a_function
          end)
  /\ (forall level,
        MerkleTree.getRoot subtle (MerkleTree.Build level)
        = match level with
          | [] => Returns EmptyString
          | [leaf] => Returns leaf
          | _ :: _ :: _ => Throws not_a_function
          end)
  /\ (forall level index,
        MerkleProof.getProof subtle (MerkleTree.Build level) index
        = match level with
          | [] | [_] => Returns []
          | _ :: _ :: _ => Throws not_a_function
          end).
Proof.
  intros H.
  split; [intros data; now apply hash_throws|].
  split.
  { intros [|d data]; [reflexivity|]. unfold MerkleTree.make.
    rewrite (traverse_throws _ not_a_function); [reflexivity | now apply hash_throws]. }
  split.
  { intros [|a [|b rest]]; [reflexivity.. |].
    rewrite getRoot_step, nextLevel_throws by exact H. reflexivity. }
  intros [|a [|b rest]] index; [reflexivity.. |].
  unfold MerkleProof.getProof.
  cbn [MerkleTree.leaves length MerkleProof.proofLoop].
  change (1 <? S (S (length rest)))%nat with true. cbv iota.
  rewrite nextLevel_throws by exact H. reflexivity.
Qed.

Lemma merkle_tree_needs_digestSync_witness :
  MerkleTree.make web_crypto ["a"; "b"; "c"]%string = Throws not_a_function
  /\ MerkleTree.make web_crypto [] = Returns (MerkleTree.Build [])
  /\ MerkleProof.getProof web_crypto (MerkleTree.Build []) 0 = Returns [].
Proof.
  destruct (merkle_tree_needs_digestSync web_crypto eq_refl) as (_ & H2 & _ & H4).
  split; [apply (H2 ["a"; "b"; "c"]%string)|].
  split; [apply (H2 []) | apply (H4 [] 0)].
Defined.

(** X3: [createAuditChain] on the Web Crypto runtime.  With one event or
    more it throws the [TypeError] at the first event hash, before the clock
    is read.  With no event it returns a block whose Merkle root is the
    empty string and whose current hash is the SHA-256 of the JSON text of
    previous hash, empty root, clock reading and a count of zero. *)
Theorem createAuditChain_needs_digestSync (subtle : SubtleCrypto)
    (events : list AuditEvent) (previous : string) (now : Z) :
  digestSync subtle = None ->
  createAuditChain subtle events previous now
  = match events with
    | [] =>
        Returns
          {| previousHash := previous;
             currentHash :=
               sha256_hex
                 ("{" ++ quote "previousHash" ++ ":" ++ quote previous
                      ++ "," ++ quote "merkleRoot" ++ ":" ++ quote EmptyString
                      ++ "," ++ quote "timestamp" ++ ":" ++ decimal now
                      ++ "," ++ quote "eventCount" ++ ":0}");
             merkleRoot := EmptyString;
             chain_timestamp := now |}
    | _ :: _ => Throws not_a_function
    end.
Proof.
  intros H. destruct events as [|e events].
  - unfold createAuditChain. cbn [traverse bind MerkleTree.make MerkleTree.getRoot
                                  MerkleTree.leaves length].
    now rewrite stringify_blockData.
  - unfold createAuditChain.
    rewrite (traverse_throws _ not_a_function); [reflexivity|].
    unfold eventHash. now rewrite H.
Qed.

Lemma createAuditChain_needs_digestSync_witness :
  createAuditChain web_crypto three_events genesis_hash 1700000002000
  = Throws not_a_function
  /\ exists chain, createAuditChain web_crypto [] genesis_hash 5 = Returns chain
                   /\ currentHash chain
                      = "9ec18145233cb7c2313ea6e6c51e06d29cca9ee1115df147437b37e2a8cec8b7"%string.
Proof.
  split.
  - apply (createAuditChain_needs_digestSync web_crypto three_events). reflexivity.
  - eexists. split; [reflexivity|]. vm_compute. reflexivity.
Defined.

(** [getProof] collects, from the leaf level up, exactly the neighbours that
    lead from a leaf to the root.  It throws exactly when [getRoot] does,
    with the same error; when both return, recomputing with the leaf, its
    index, the number of leaves and the proof gives the root. *)
Lemma getProof_leads_to_root (subtle : SubtleCrypto) (level : list string)
    (index : nat) :
  (index < length level)%nat ->
  match MerkleProof.getProof subtle (MerkleTree.Build level) (Z.of_nat index),
        MerkleTree.getRoot subtle (MerkleTree.Build level) with
  | Returns proof, Returns root =>
      MerkleProof.rootFromProof subtle (length level) (length level) index
        (nth index level EmptyString) proof
      = Returns root
  | Throws message, Throws message' => message = message'
  | Returns _, Throws _ | Throws _, Returns _ => False
  end.
Proof.
  intros H. rewrite getRoot_reduce by (destruct level; cbn in *; [lia | congruence]).
  unfold MerkleProof.getProof. cbn [MerkleTree.leaves].
  pose proof (proofLoop_reduce subtle (length level) level (Z.of_nat index)) as Hsame.
  destruct (MerkleTree.reduce subtle (length level) level) as [top|m] eqn:Hr;
    destruct (MerkleProof.proofLoop subtle (length level) level (Z.of_nat index))
      as [proof|m'] eqn:Hp; cbn [bind]; try contradiction; [|now subst].
  apply (rootFromProof_reduce subtle (length level) level top proof index);
    [lia | exact H | exact Hr | exact Hp].
Qed.

(** X4: an index that is no position of the tree is not refused.  For a
    negative index, and for any index on a tree of at most one leaf,
    [getProof] returns whenever the passes over the tree do, and the proof
    it returns is empty. *)
Theorem getProof_outside (subtle : SubtleCrypto) (level : list string) (index : Z) :
  index < 0 \/ (length level <= 1)%nat ->
  match MerkleProof.getProof subtle (MerkleTree.Build level) index with
  | Returns proof => proof = []
  | Throws message =>
      MerkleTree.getRoot subtle (MerkleTree.Build level) = Throws message
  end.
Proof.
  intros H.
  assert (Hshort : (length level <= 1)%nat ->
                   MerkleProof.getProof subtle (MerkleTree.Build level) index
                   = Returns []).
  { destruct level as [|a [|b rest]]; cbn; [reflexivity.. | lia]. }
  destruct (le_lt_dec (length level) 1) as [Hle|Hgt]; [now rewrite Hshort|].
  destruct H as [Hneg|Hle]; [|lia].
  unfold MerkleProof.getProof. cbn [MerkleTree.leaves].
  rewrite getRoot_reduce by (destruct level; cbn in *; [lia | congruence]).
  pose proof (proofLoop_reduce subtle (length level) level index) as Hsame.
  destruct (MerkleProof.proofLoop subtle (length level) level index) as [proof|m] eqn:Hp.
  - exact (proofLoop_outside subtle _ _ _ _ Hneg Hp).
  - destruct (MerkleTree.reduce subtle (length level) level); [contradiction|].
    now subst.
Qed.

Lemma getProof_outside_witness :
  match MerkleProof.getProof web_crypto (MerkleTree.Build []) 7 with
  | Returns proof => proof = []
  | Throws message =>
      MerkleTree.getRoot web_crypto (MerkleTree.Build []) = Throws message
  end.
Proof.
  apply (getProof_outside web_crypto [] 7). right. cbn. lia.
Defined.

(** ** Draining the pending events *)

Section Draining.

Import BlockchainAudit.







Lemma filter_none {A} (P : A -> Prop) `{!forall x, Decision (P x)} (l : list A) :
  (forall x, x ∈ l -> ~ P x) -> filter P l = [].
Proof.
  induction l as [|x l IH]; intros Hnone; [reflexivity|].
  rewrite filter_cons. destruct (decide (P x)) as [Hp|_].
  - exfalso. apply (Hnone x); [constructor | exact Hp].
  - apply IH. intros y Hy. apply Hnone. now constructor.
Qed.


(** Without [digestSync] a [process_batch] writes nothing. *)
Lemma processBatch_web (s : db) (w : World) (fl : Faults) :
  digestSync (subtle w) = None ->
  (fst (processBatch s w fl) = NoPending
   \/ fst (processBatch s w fl) = Failure not_a_function)
  /\ snd (processBatch s w fl) = s.
Proof.
  intros Hsub. unfold processBatch.
  destruct (if pending_query_fails fl then [] else pendingLogs s) as [|l0 logs];
    [split; [now left | reflexivity]|].
  unfold createAuditChain. cbn [map].
  rewrite (traverse_throws _ not_a_function);
    [split; [now right | reflexivity]|].
  unfold eventHash. now rewrite Hsub.
Qed.

Lemma minimum_spec (x : Z) (xs : list Z) :
  In (minimum (x :: xs)) (x :: xs) /\ forall y, In y (x :: xs) -> minimum (x :: xs) <= y.
Proof.
  unfold minimum. revert x. induction xs as [|z xs IH]; intros x; cbn [fold_left].
  - split; [now left|]. intros y [<-|[]]. lia.
  - destruct (IH (Z.min x z)) as [Hin Hle]. split.
    + destruct Hin as [Hin|Hin]; [|now right; right].
      rewrite <- Hin. destruct (Z.min_spec x z) as [[_ ->]|[_ ->]];
        [now left | now right; left].
    + intros y [<-|[<-|Hy]].
      * specialize (Hle (Z.min x z) (or_introl eq_refl)). lia.
      * specialize (Hle (Z.min x z) (or_introl eq_refl)). lia.
      * apply Hle. now right.
Qed.

Lemma maximum_spec (x : Z) (xs : list Z) :
  In (maximum (x :: xs)) (x :: xs) /\ forall y, In y (x :: xs) -> y <= maximum (x :: xs).
Proof.
  unfold maximum. revert x. induction xs as [|z xs IH]; intros x; cbn [fold_left].
  - split; [now left|]. intros y [<-|[]]. lia.
  - destruct (IH (Z.max x z)) as [Hin Hle]. split.
    + destruct Hin as [Hin|Hin]; [|now right; right].
      rewrite <- Hin. destruct (Z.max_spec x z) as [[_ ->]|[_ ->]];
        [now right; left | now left].
    + intros y [<-|[<-|Hy]].
      * specialize (Hle (Z.max x z) (or_introl eq_refl)). lia.
      * specialize (Hle (Z.max x z) (or_introl eq_refl)). lia.
      * apply Hle. now right.
Qed.

End Draining.





(** X7: the metadata of a batch counts its events, and its first and last
    event times are the least and the greatest timestamp among them. *)
Theorem batch_metadata_brackets_events (auditEvents : list AuditEvent) :
  auditEvents <> [] ->
  let m := BlockchainAudit.batchMetadata auditEvents in
  eventCount m = Z.of_nat (length auditEvents)
  /\ (exists first, first ∈ auditEvents /\ timestamp first = firstEventTime m)
  /\ (exists last, last ∈ auditEvents /\ timestamp last = lastEventTime m)
  /\ (forall e, e ∈ auditEvents ->
                firstEventTime m <= timestamp e <= lastEventTime m).
Proof.
  intros Hne m. destruct auditEvents as [|e0 rest]; [congruence|].
  subst m. unfold BlockchainAudit.batchMetadata.
  cbn [eventCount firstEventTime lastEventTime map].
  destruct (minimum_spec (timestamp e0) (map timestamp rest)) as [Hmin Hle].
  destruct (maximum_spec (timestamp e0) (map timestamp rest)) as [Hmax Hge].
  change (timestamp e0 :: map timestamp rest)
    with (map timestamp (e0 :: rest)) in Hmin, Hle, Hmax, Hge.
  split; [reflexivity|].
  split; [apply in_map_iff in Hmin as (x & Hx & Hin); exists x;
          split; [now apply list_elem_of_In | exact Hx]|].
  split; [apply in_map_iff in Hmax as (x & Hx & Hin); exists x;
          split; [now apply list_elem_of_In | exact Hx]|].
  intros e He. apply list_elem_of_In in He.
  split; [apply Hle | apply Hge]; now apply in_map.
Qed.

Lemma batch_metadata_brackets_events_witness :
  firstEventTime (BlockchainAudit.batchMetadata three_events) = 1700000000000
  /\ lastEventTime (BlockchainAudit.batchMetadata three_events) = 1700000001000.
Proof.
  destruct (batch_metadata_brackets_events three_events) as (_ & _ & _ & H);
    [discriminate|].
  split; reflexivity.
Defined.

(** X8: on the Web Crypto runtime the audit trail only grows and stays
    unsealed.  Whatever the request, the handler never answers that a batch
    was processed, leaves [audit_batches] as it was, rewrites no audit log,
    and appends at most one, which is pending. *)
Theorem audit_trail_stays_unsealed
    (s : db) (req : BlockchainAudit.Request) (w : BlockchainAudit.World)
    (fl : BlockchainAudit.Faults) :
  digestSync (BlockchainAudit.subtle w) = None ->
  let out := BlockchainAudit.serve s req w fl in
  (forall batchId n root cur,
      fst out <> BlockchainAudit.BatchProcessed batchId n root cur)
  /\ audit_batches (snd out) = audit_batches s
  /\ exists extra,
       audit_logs (snd out) = audit_logs s ++ extra
       /\ (length extra <= 1)%nat
       /\ forall log, log ∈ extra -> log_blockchain_tx log = None.
Proof.
  intros Hsub out.
  assert (Hsame : forall r, (forall batchId n root cur,
                                r <> BlockchainAudit.BatchProcessed batchId n root cur) ->
             (forall batchId n root cur,
                 fst (r, s) <> BlockchainAudit.BatchProcessed batchId n root cur)
             /\ audit_batches (snd (r, s)) = audit_batches s
             /\ exists extra,
                  audit_logs (snd (r, s)) = audit_logs s ++ extra
                  /\ (length extra <= 1)%nat
                  /\ forall log, log ∈ extra -> log_blockchain_tx log = None).
  { intros r Hr. split; [exact Hr|]. split; [reflexivity|].
    exists []. rewrite app_nil_r. split; [reflexivity|].
    split; [cbn; lia | inversion 1]. }
  subst out. unfold BlockchainAudit.serve.
  destruct (BlockchainAudit.is_options req); [apply Hsame; discriminate|].
  destruct (or_string _ _) as [authHeader|]; [|apply Hsame; discriminate].
  destruct (BlockchainAudit.body req) as [b|]; [|apply Hsame; discriminate].
  destruct (sessions s !! authHeader) as [user|]; [|apply Hsame; discriminate].
  destruct b as [e| |]; [| |apply Hsame; discriminate].
  - unfold BlockchainAudit.logEvent. cbn [fst snd audit_batches audit_logs set_audit_logs].
    split; [discriminate|]. split; [reflexivity|].
    unfold insert_row. destruct (BlockchainAudit.log_insert_fails fl).
    + exists []. rewrite app_nil_r. split; [reflexivity|].
      split; [cbn; lia | inversion 1].
    + eexists [_]. split; [reflexivity|]. split; [cbn; lia|].
      intros log Hlog. apply list_elem_of_singleton in Hlog. now subst log.
  - destruct (processBatch_web s w fl Hsub) as [Hr Hs].
    destruct (BlockchainAudit.processBatch s w fl) as [r s']. cbn [fst snd] in *.
    subst s'. apply Hsame. destruct Hr as [-> | ->]; discriminate.
Qed.

Lemma audit_trail_stays_unsealed_witness :
  let out := BlockchainAudit.serve two_logged
               (audit_request BlockchainAudit.process_batch)
               (world_at 3000) (audit_faults false false false) in
  (forall batchId n root cur,
      fst out <> BlockchainAudit.BatchProcessed batchId n root cur)
  /\ audit_batches (snd out) = audit_batches two_logged
  /\ exists extra,
       audit_logs (snd out) = audit_logs two_logged ++ extra
       /\ (length extra <= 1)%nat
       /\ forall log, log ∈ extra -> log_blockchain_tx log = None.
Proof.
  exact (audit_trail_stays_unsealed two_logged
           (audit_request BlockchainAudit.process_batch)
           (world_at 3000) (audit_faults false false false) eq_refl).
Defined.

(** ** Who may write audit records *)

(** X9: [blockchain-audit] writes only when it records an event or processes
    a batch.  A request without an [Authorization] header is answered 401, a
    request whose token belongs to no user 400, and so is one whose anchoring
    call throws or whose action is unknown; in all these cases, and when
    nothing is pending, the store is left as it was. *)
Theorem audit_store_changes_only_on_success
    (s : db) (req : BlockchainAudit.Request) (w : BlockchainAudit.World)
    (fl : BlockchainAudit.Faults) :
  let out := BlockchainAudit.serve s req w fl in
  match fst out with
  | BlockchainAudit.EventRecorded _ | BlockchainAudit.BatchProcessed _ _ _ _ => True
  | _ => snd out = s
  end
  /\ (BlockchainAudit.is_options req = false ->
      or_string (BlockchainAudit.authorization req) None = None ->
      out = (BlockchainAudit.MissingAuthorization, s))
  /\ (BlockchainAudit.is_options req = false ->
      forall token, token <> EmptyString ->
                    BlockchainAudit.authorization req = Some token ->
                    sessions s !! token = None ->
                    BlockchainAudit.status (fst out) = 400 /\ snd out = s).
Proof.
  intros out. subst out. unfold BlockchainAudit.serve. split; [|split].
  - destruct (BlockchainAudit.is_options req); [reflexivity|].
    destruct (or_string _ _) as [authHeader|]; [|reflexivity].
    destruct (BlockchainAudit.body req) as [b|]; [|reflexivity].
    destruct (sessions s !! authHeader) as [user|]; [|reflexivity].
    destruct b as [e| |]; [exact I | | reflexivity].
    unfold BlockchainAudit.processBatch.
    destruct (if BlockchainAudit.pending_query_fails fl then _ else _);
      [reflexivity|].
    destruct (createAuditChain _ _ _ _); [|reflexivity].
    destruct (recordAuditBatch _ _ _); [exact I | reflexivity].
  - intros -> ->. reflexivity.
  - intros -> token Htok -> Hnone.
    destruct token as [|c token]; [contradiction|]. cbn [or_string].
    destruct (BlockchainAudit.body req); [rewrite Hnone|]; split; reflexivity.
Qed.

Lemma audit_store_changes_only_on_success_witness :
  BlockchainAudit.serve two_logged
    {| BlockchainAudit.is_options := false;
       BlockchainAudit.authorization := None;
       BlockchainAudit.body := Some BlockchainAudit.process_batch;
       BlockchainAudit.x_forwarded_for := None;
       BlockchainAudit.x_real_ip := None;
       BlockchainAudit.user_agent := None |}
    (world_at 3000) (audit_faults false false false)
  = (BlockchainAudit.MissingAuthorization, two_logged).
Proof.
  refine (proj1 (proj2 (audit_store_changes_only_on_success two_logged _ _ _)) _ _);
    reflexivity.
Defined.



(** ** The quota handlers as a whole *)

Lemma NoDup_map_inj {A B} (f : A -> B) (l : list A) (x y : A) :
  NoDup (map f l) -> x ∈ l -> y ∈ l -> f x = f y -> x = y.
Proof.
  induction l as [|z l IH]; intros Hnd Hx Hy Hf; [inversion Hx|].
  cbn [map] in Hnd. apply NoDup_cons in Hnd as [Hz Hnd].
  apply elem_of_cons in Hx as [->|Hx]; apply elem_of_cons in Hy as [->|Hy].
  - reflexivity.
  - exfalso. apply Hz. rewrite Hf. apply list_elem_of_In, in_map, list_elem_of_In, Hy.
  - exfalso. apply Hz. rewrite <- Hf. apply list_elem_of_In, in_map, list_elem_of_In, Hx.
  - now apply IH.
Qed.

Lemma map_map_same {A B} (f : A -> A) (g : A -> B) (l : list A) :
  (forall x, g (f x) = g x) -> map g (map f l) = map g l.
Proof. intros H. rewrite map_map. apply map_ext. exact H. Qed.

Section QuotaWhole.

Import VerifyWithLimit.

(** What a call does to the [students] table. *)
Lemma serve_students (s : db) (req : Request) (clk : Clock) (fl : Faults) :
  let out := serve s req clk fl in
  ((forall v, fst out <> Verified v) /\ students (snd out) = students s)
  \/ exists tr st inst,
       st ∈ students s
       /\ verification_count st < effective_limit st
       /\ fst out
          = Verified
              {| student_name := full_name st; student_email := email st;
                 institution_name := inst_name inst;
                 institution_email := inst_email inst;
                 transcript := tr;
                 verificationCount := verification_count st + 1;
                 verificationLimit := effective_limit st;
                 remainingVerifications :=
                   Z.max 0 (effective_limit st - (verification_count st + 1)) |}
       /\ students (snd out)
          = if count_update_fails fl then students s
            else update_count (st_id st) (verification_count st + 1) (students s).
Proof.
  intros out. subst out. unfold serve.
  destruct (is_options req); [left; split; [discriminate | reflexivity]|].
  destruct (body req) as [b|]; [|left; split; [discriminate | reflexivity]].
  destruct (decide _); [left; split; [discriminate | reflexivity]|].
  destruct (recentSuccess _ _ _ _); [left; split; [discriminate | reflexivity]|].
  destruct (findTranscript fl s (verificationId b)) as [[[tr st] inst]|] eqn:Hfound;
    [|left; split; [discriminate | reflexivity]].
  rewrite or_default_0. fold (effective_limit st).
  destruct (Z.leb_spec (effective_limit st) (verification_count st));
    [left; split; [discriminate | reflexivity]|].
  right. exists tr, st, inst.
  split; [apply (findTranscript_student fl s _ tr st inst Hfound)|].
  split; [lia|]. split; [reflexivity|].
  cbn [snd]. now destruct (count_update_fails fl).
Qed.

Lemma serve_attempts (s : db) (req : Request) (clk : Clock) (fl : Faults) :
  let out := serve s req clk fl in
  same_outside_quota s (snd out)
  /\ exists extra, verification_attempts (snd out) = verification_attempts s ++ extra
                   /\ (length extra <= 1)%nat.
Proof.
  intros out. subst out. unfold serve, log_attempt, insert_row, same_outside_quota.
  repeat match goal with
         | |- context [match ?x with _ => _ end] => destruct x
         end; cbn;
    (split; [repeat split|]);
    first [ exists []; split; [now rewrite app_nil_r | cbn; lia]
          | eexists [_]; split; [reflexivity | cbn; lia] ].
Qed.

End QuotaWhole.

Section ResetWhole.

Import ResetVerificationCount.

Lemma reset_serve_cases (s : db) (req : Request) (now : Z) (fl : Faults) :
  let out := serve s req now fl in
  ((forall a b c d e, fst out <> ResetDone a b c d e) /\ snd out = s)
  \/ exists token user admin st,
       authorization req = Some token /\ token <> EmptyString
       /\ sessions s !! token = Some user
       /\ admin ∈ institutions s /\ inst_user_id admin = user
       /\ st ∈ students s /\ body req = Some (st_id st)
       /\ institution_id st = inst_id admin
       /\ fst out = ResetDone (st_id st) (full_name st) (email st) 0
                      (verification_limit st)
       /\ snd out
          = set_verification_attempts
              (insert_row (attempt_insert_fails fl)
                 (reset_row (st_id st) (inst_id admin) now))
              (set_students (reset_count (st_id st) (inst_id admin)) s).
Proof.
  intros out. subst out. unfold serve.
  destruct (is_options req); [left; split; [discriminate | reflexivity]|].
  destruct (authorization req) as [token|] eqn:Hauth;
    [|left; split; [discriminate | reflexivity]].
  destruct token as [|c token];
    [left; split; [discriminate | reflexivity]|]. cbn [or_string].
  destruct (body req) as [studentId|]; [|left; split; [discriminate | reflexivity]].
  destruct (decide _); [left; split; [discriminate | reflexivity]|].
  destruct (sessions s !! String c token) as [user|] eqn:Hsess;
    [|left; split; [discriminate | reflexivity]].
  destruct (if institution_query_fails fl then None else _) as [admin|] eqn:Hadmin;
    [|left; split; [discriminate | reflexivity]].
  destruct (if student_query_fails fl then None else _) as [st|] eqn:Hst;
    [|left; split; [discriminate | reflexivity]].
  destruct (count_update_fails fl); [left; split; [discriminate | reflexivity]|].
  destruct (institution_query_fails fl); [discriminate|].
  destruct (student_query_fails fl); [discriminate|].
  apply single_elem in Hadmin, Hst.
  assert (Ha : admin ∈ filter (fun i => inst_user_id i = user) (institutions s))
    by (rewrite Hadmin; constructor).
  assert (Hs : st ∈ filter (owned studentId (inst_id admin)) (students s))
    by (rewrite Hst; constructor).
  apply list_elem_of_filter in Ha as [Hu Ha].
  apply list_elem_of_filter in Hs as [[Hid Hinst] Hs].
  rewrite Hst. subst studentId. right.
  exists (String c token), user, admin, st. repeat split; auto; try discriminate.
Qed.

End ResetWhole.

(** X11: the quota invariant.  On a store whose student ids are unique and
    whose counters lie between zero and the limit in force
    ([verification_limit], or 5 when it is 0), every call of
    [verify-with-limit] and of [reset-verification-count] leaves a store
    with the same property, whatever it answers and whichever database call
    fails. *)
Theorem quota_is_never_exceeded
    (s : db) (req : VerifyWithLimit.Request) (clk : VerifyWithLimit.Clock)
    (fl : VerifyWithLimit.Faults)
    (rreq : ResetVerificationCount.Request) (now : Z)
    (rfl : ResetVerificationCount.Faults) :
  quota_respected s ->
  quota_respected (snd (VerifyWithLimit.serve s req clk fl))
  /\ quota_respected (snd (ResetVerificationCount.serve s rreq now rfl)).
Proof.
  intros [Hnd Hq]. split.
  - destruct (serve_students s req clk fl)
      as [[_ Hsame]|(tr & st & inst & Hin & Hlt & _ & Hst)].
    + unfold quota_respected. now rewrite Hsame.
    + unfold quota_respected. rewrite Hst.
      destruct (VerifyWithLimit.count_update_fails fl); [now split|].
      unfold VerifyWithLimit.update_count. split.
      * rewrite map_map_same; [exact Hnd|]. intros x. now destruct (decide _).
      * intros st' Hst'.
        apply list_elem_of_In, in_map_iff in Hst' as (st0 & <- & Hst0).
        apply list_elem_of_In in Hst0.
        destruct (decide (st_id st0 = st_id st)) as [Hid|_]; [|now apply Hq].
        assert (st0 = st) by (eapply NoDup_map_inj; eauto). subst st0.
        unfold effective_limit in *.
        cbn [VerifyWithLimit.with_count verification_count verification_limit].
        specialize (Hq st Hin). lia.
  - destruct (reset_serve_cases s rreq now rfl)
      as [[_ ->]|(token & user & admin & st & _ & _ & _ & _ & _ & _ & _ & _ & _ & ->)];
      [now split|].
    unfold quota_respected.
    cbn [students set_students set_verification_attempts].
    unfold ResetVerificationCount.reset_count. split.
    + rewrite map_map_same; [exact Hnd|]. intros x. now destruct (decide _).
    + intros st' Hst'.
      apply list_elem_of_In, in_map_iff in Hst' as (st0 & <- & Hst0).
      apply list_elem_of_In in Hst0. specialize (Hq st0 Hst0).
      destruct (decide _); [|exact Hq].
      unfold effective_limit in *.
      cbn [ResetVerificationCount.zero_count verification_count verification_limit].
      lia.
Qed.

Lemma quota_is_never_exceeded_witness :
  quota_respected
    (snd (VerifyWithLimit.serve (sample_db 4) (verify_request sample_body)
            (clock_at 1000) (verify_faults false))).
Proof.
  apply (quota_is_never_exceeded (sample_db 4) (verify_request sample_body)
           (clock_at 1000) (verify_faults false)
           (reset_request "Bearer t1" "stu-1") 2000 no_faults).
  split.
  - cbn. repeat constructor. inversion 1.
  - intros st Hst. apply list_elem_of_singleton in Hst. subst st. vm_compute.
    split; discriminate.
Defined.

(** X12: attempt rows are never rewritten or removed: a call of
    [verify-with-limit] or of [reset-verification-count] appends at most one
    row to [verification_attempts], and neither handler writes any table
    other than [students] and [verification_attempts]. *)
Theorem attempts_are_append_only
    (s : db) (req : VerifyWithLimit.Request) (clk : VerifyWithLimit.Clock)
    (fl : VerifyWithLimit.Faults)
    (rreq : ResetVerificationCount.Request) (now : Z)
    (rfl : ResetVerificationCount.Faults) :
  (same_outside_quota s (snd (VerifyWithLimit.serve s req clk fl))
   /\ exists extra,
        verification_attempts (snd (VerifyWithLimit.serve s req clk fl))
        = verification_attempts s ++ extra
        /\ (length extra <= 1)%nat)
  /\ (same_outside_quota s (snd (ResetVerificationCount.serve s rreq now rfl))
      /\ exists extra,
           verification_attempts (snd (ResetVerificationCount.serve s rreq now rfl))
           = verification_attempts s ++ extra
           /\ (length extra <= 1)%nat
           /\ forall a, a ∈ extra ->
                        va_verification_id a
                        = ResetVerificationCount.RESET_BY_INSTITUTION).
Proof.
  split; [apply serve_attempts|].
  destruct (reset_serve_cases s rreq now rfl)
    as [[_ ->]|(token & user & admin & st & _ & _ & _ & _ & _ & _ & _ & _ & _ & ->)].
  - split; [repeat split|]. exists []. rewrite app_nil_r.
    split; [reflexivity|]. split; [cbn; lia | inversion 1].
  - split; [repeat split|].
    cbn [verification_attempts set_verification_attempts set_students].
    unfold insert_row.
    destruct (ResetVerificationCount.attempt_insert_fails rfl).
    + exists []. rewrite app_nil_r. split; [reflexivity|].
      split; [cbn; lia | inversion 1].
    + eexists [_]. split; [reflexivity|]. split; [cbn; lia|].
      intros a Ha. apply list_elem_of_singleton in Ha. now subst a.
Qed.

(** What an update of one column does to a table, row by row. *)
Lemma lookup_map_row {A} (f : A -> A) (rows : list A) (i : nat) (row : A) :
  rows !! i = Some row -> map f rows !! i = Some (f row).
Proof.
  intros H. change (map f rows) with (f <$> rows).
  now rewrite list_lookup_fmap, H.
Qed.

(** X13: only a verified answer consumes quota.  Any other answer leaves
    [students] untouched.  A verified answer reports a count within the limit
    in force and the remaining verifications as their difference; the count
    is one above the counter of the matched student.  When the update fails
    [students] is left as it was; when it goes through, every row keeps its
    place and all its columns but the counter, the counter of the matched
    student is the reported count, and every other counter is as it was. *)
Theorem only_a_verified_answer_consumes_quota
    (s : db) (req : VerifyWithLimit.Request) (clk : VerifyWithLimit.Clock)
    (fl : VerifyWithLimit.Faults) :
  let out := VerifyWithLimit.serve s req clk fl in
  ((forall v, fst out <> VerifyWithLimit.Verified v) ->
   students (snd out) = students s)
  /\ (forall v, fst out = VerifyWithLimit.Verified v ->
        VerifyWithLimit.verificationCount v <= VerifyWithLimit.verificationLimit v
        /\ VerifyWithLimit.remainingVerifications v
           = VerifyWithLimit.verificationLimit v - VerifyWithLimit.verificationCount v
        /\ exists st,
             st ∈ students s
             /\ VerifyWithLimit.verificationCount v = verification_count st + 1
             /\ VerifyWithLimit.verificationLimit v = effective_limit st
             /\ (VerifyWithLimit.count_update_fails fl = true ->
                 students (snd out) = students s)
             /\ (VerifyWithLimit.count_update_fails fl = false ->
                 length (students (snd out)) = length (students s)
                 /\ forall i row, students s !! i = Some row ->
                      exists stored,
                        students (snd out) !! i = Some stored
                        /\ verification_count stored
                           = (if decide (st_id row = st_id st)
                              then VerifyWithLimit.verificationCount v
                              else verification_count row)
                        /\ (st_id stored, full_name stored, email stored,
                            institution_id stored, verification_limit stored)
                           = (st_id row, full_name row, email row,
                              institution_id row, verification_limit row))).
Proof.
  intros out. subst out.
  destruct (serve_students s req clk fl)
    as [[Hnot Hsame]|(tr & st & inst & Hin & Hlt & Hv & Hst)].
  - split; [intros _; exact Hsame|]. intros v Hv. now apply Hnot in Hv.
  - split; [intros Hnot; now apply Hnot in Hv|].
    intros v Hv'. rewrite Hv in Hv'. injection Hv' as <-.
    cbn [VerifyWithLimit.verificationCount VerifyWithLimit.verificationLimit
         VerifyWithLimit.remainingVerifications].
    split; [lia|]. split; [lia|]. rewrite Hst.
    exists st. split; [exact Hin|]. split; [reflexivity|]. split; [reflexivity|].
    split; intros ->; [reflexivity|].
    unfold VerifyWithLimit.update_count. split; [apply length_map|].
    intros i row Hi. eexists. split; [apply lookup_map_row; exact Hi|].
    destruct (decide (st_id row = st_id st)); split; reflexivity.
Qed.

Lemma only_a_verified_answer_consumes_quota_witness :
  let out := VerifyWithLimit.serve (sample_db 2) (verify_request sample_body)
               (clock_at 1000) (verify_faults false) in
  exists v stored,
    fst out = VerifyWithLimit.Verified v
    /\ VerifyWithLimit.verificationCount v = 3
    /\ students (snd out) !! 0%nat = Some stored
    /\ length (students (snd out)) = 1%nat
    /\ verification_count stored = 3.
Proof.
  intros out.
  eassert (E : fst out = VerifyWithLimit.Verified _) by (vm_compute; reflexivity).
  destruct (only_a_verified_answer_consumes_quota (sample_db 2)
              (verify_request sample_body) (clock_at 1000) (verify_faults false))
    as [_ H].
  destruct (H _ E) as (_ & _ & st & Hst & Hcount & _ & _ & Hok).
  apply list_elem_of_singleton in Hst. subst st.
  destruct (Hok eq_refl) as [Hlen Hrows].
  destruct (Hrows 0%nat (sample_student 2) eq_refl) as (stored & Hstored & Hc & _).
  do 2 eexists. split; [exact E|]. split; [exact Hcount|].
  split; [exact Hstored|]. split; [exact Hlen|].
  rewrite Hc. destruct (decide _) as [_|Hn]; [exact Hcount | now destruct Hn].
Defined.

(** X14: a reset is granted only to a signed-in user whose institution owns
    the student, and it touches that student alone.  Every other answer
    leaves the store as it was.  After a granted reset every row of
    [students] keeps its place and all its columns but the counter; the
    counter of the rows with the requested id in the caller's institution
    is zero, and every other counter is as it was. *)
Theorem reset_touches_only_the_callers_student
    (s : db) (req : ResetVerificationCount.Request) (now : Z)
    (fl : ResetVerificationCount.Faults) :
  let out := ResetVerificationCount.serve s req now fl in
  ((forall a b c d e, fst out <> ResetVerificationCount.ResetDone a b c d e) ->
   snd out = s)
  /\ (forall id name mail count limit,
        fst out = ResetVerificationCount.ResetDone id name mail count limit ->
        count = 0
        /\ exists token user admin,
             ResetVerificationCount.authorization req = Some token
             /\ sessions s !! token = Some user
             /\ admin ∈ institutions s /\ inst_user_id admin = user
             /\ (exists st, st ∈ students s /\ st_id st = id
                            /\ institution_id st = inst_id admin
                            /\ verification_limit st = limit)
             /\ length (students (snd out)) = length (students s)
             /\ forall i row, students s !! i = Some row ->
                  exists stored,
                    students (snd out) !! i = Some stored
                    /\ verification_count stored
                       = (if decide (st_id row = id
                                     /\ institution_id row = inst_id admin)
                          then 0 else verification_count row)
                    /\ (st_id stored, full_name stored, email stored,
                        institution_id stored, verification_limit stored)
                       = (st_id row, full_name row, email row,
                          institution_id row, verification_limit row)).
Proof.
  intros out. subst out.
  destruct (reset_serve_cases s req now fl)
    as [[Hnot Hsame]|(token & user & admin & st & Hauth & _ & Hsess & Hadmin & Hu
                      & Hin & _ & Hinst & Hdone & Hout)].
  - split; [intros _; exact Hsame|]. intros id name mail count limit H.
    now apply Hnot in H.
  - split; [intros Hnot; now apply Hnot in Hdone|].
    intros id name mail count limit H. rewrite Hdone in H.
    injection H as <- <- <- <- <-. split; [reflexivity|].
    exists token, user, admin. repeat split; auto.
    + exists st. auto.
    + rewrite Hout. cbn [students set_students set_verification_attempts].
      apply length_map.
    + intros i row Hi. rewrite Hout.
      cbn [students set_students set_verification_attempts].
      unfold ResetVerificationCount.reset_count.
      eexists. split; [apply lookup_map_row; exact Hi|].
      unfold ResetVerificationCount.owned.
      destruct (decide (st_id row = st_id st /\ institution_id row = inst_id admin));
        split; reflexivity.
Qed.

Lemma reset_touches_only_the_callers_student_witness :
  let out := ResetVerificationCount.serve (sample_db 3)
               (reset_request "Bearer t1" "stu-1") 1000 no_faults in
  fst out = ResetVerificationCount.ResetDone "stu-1" "Ada" "ada@example.edu" 0 5
  /\ exists stored,
       students (snd out) !! 0%nat = Some stored
       /\ length (students (snd out)) = 1%nat
       /\ verification_count stored = 0.
Proof.
  intros out.
  assert (E : fst out
              = ResetVerificationCount.ResetDone "stu-1" "Ada" "ada@example.edu" 0 5)
    by (vm_compute; reflexivity).
  split; [exact E|].
  destruct (reset_touches_only_the_callers_student (sample_db 3)
              (reset_request "Bearer t1" "stu-1") 1000 no_faults) as [_ H].
  destruct (H _ _ _ _ _ E)
    as (_ & token & user & admin & _ & _ & Hadmin & _ & _ & Hlen & Hrows).
  apply list_elem_of_singleton in Hadmin. subst admin.
  destruct (Hrows 0%nat (sample_student 3) eq_refl) as (stored & Hstored & Hc & _).
  exists stored. split; [exact Hstored|]. split; [exact Hlen|].
  rewrite Hc. destruct (decide _) as [_|Hn]; [reflexivity|].
  destruct Hn. split; reflexivity.
Defined.

(** ** The rate limiter beyond one scenario *)

Section RateLimitMore.

Import RateLimiter.

Variables (ip : string) (vid : option string).

Lemma calls_app (l1 l2 : list Z) (limits : gmap string RateLimit) :
  calls limits ip vid (l1 ++ l2)
  = (fst (calls limits ip vid l1)
     ++ fst (calls (snd (calls limits ip vid l1)) ip vid l2),
     snd (calls (snd (calls limits ip vid l1)) ip vid l2)).
Proof.
  revert limits. induction l1 as [|t l1 IH]; intros limits.
  - cbn. now destruct (calls limits ip vid l2).
  - cbn [app calls].
    destruct (check_verification_rate_limit limits ip vid t) as [ok limits1].
    rewrite IH. destruct (calls limits1 ip vid l1) as [oks limits2]. cbn [fst snd].
    now destruct (calls limits2 ip vid l2).
Qed.

Lemma calls_all_blocked (times : list Z) (limits : gmap string RateLimit)
    (r : RateLimit) (until : Z) :
  limits !! ip = Some r -> blocked_until r = Some until ->
  (forall t, In t times -> t < until) ->
  calls limits ip vid times = (repeat false (length times), limits).
Proof.
  intros Hr Hb. induction times as [|t times IH]; intros Ht; [reflexivity|].
  cbn [calls]. rewrite check_blocked.
  - rewrite IH by (intros x Hx; apply Ht; now right). reflexivity.
  - rewrite Hr. unfold blocked. rewrite Hb. apply Z.ltb_lt, Ht. now left.
Qed.

Lemma last_in (x d : Z) (l : list Z) : In (List.last (x :: l) d) (x :: l).
Proof.
  revert x. induction l as [|y l IH]; intros x; [now left|].
  right. exact (IH y).
Qed.

Lemma calls_within_an_hour (limits : gmap string RateLimit) (t1 : Z) (rest : list Z) :
  limits !! ip = None ->
  (forall t, In t rest -> t1 <= t < t1 + hour) ->
  fst (calls limits ip vid (t1 :: rest))
  = repeat true (Nat.min (S (length rest)) 20)
    ++ repeat false (S (length rest) - 20).
Proof.
  intros Hnone Hwin.
  assert (Hall : forall t, In t (t1 :: rest) -> t1 <= t < t1 + hour).
  { intros t [<-|Ht]; [unfold hour; lia | now apply Hwin]. }
  set (times := t1 :: rest) in *.
  change (S (length rest)) with (length times).
  destruct (Nat.le_gt_cases (length times) 20) as [Hle|Hgt].
  - destruct (calls_from_fresh_key ip vid limits times Hnone) as [-> _];
      [subst times; cbn; lia | unfold threshold; lia|].
    replace (length times - 20)%nat with 0%nat by lia.
    rewrite Nat.min_l by lia. cbn [repeat]. now rewrite app_nil_r.
  - rewrite <- (take_drop 20 times), calls_app. cbn [fst].
    assert (Hlen : length (take 20 times) = 20%nat) by (rewrite length_take; lia).
    destruct (calls_from_fresh_key ip vid limits (take 20 times) Hnone)
      as [Hoks (r & Hr & Hcount & Hblk & Hlast)];
      [lia | unfold threshold; lia|].
    rewrite Hoks, Hlen, take_drop, Nat.min_r by lia. f_equal.
    set (limits20 := snd (calls limits ip vid (take 20 times))) in *.
    assert (Hlastin : t1 <= last_attempt_at r).
    { rewrite Hlast. destruct (take 20 times) as [|x l] eqn:E; [discriminate Hlen|].
      rewrite (last_cons x 0 l), <- (last_cons x x l).
      apply Hall. rewrite <- (take_drop 20 times), E. apply in_or_app. left.
      apply last_in. }
    pose proof (length_drop times 20) as Hdrop.
    destruct (drop 20 times) as [|t21 later] eqn:E; cbn [length] in Hdrop; [lia|].
    assert (Hin : forall t, In t (t21 :: later) -> t1 <= t < t1 + hour).
    { intros t Ht. apply Hall. rewrite <- (take_drop 20 times), E.
      apply in_or_app. now right. }
    rewrite <- Hdrop.
    cbn [calls repeat]. rewrite check_blocks.
    + rewrite Hr.
      erewrite calls_all_blocked; [reflexivity | apply lookup_insert_eq | reflexivity|].
      intros t Ht. pose proof (Hin t (or_intror Ht)) as Ht'.
      pose proof (Hin t21 (or_introl eq_refl)) as H21. unfold hour in *. lia.
    + rewrite Hr. unfold blocked. now rewrite Hblk.
    + rewrite Hr. unfold current_attempts, threshold. rewrite Hcount, Hlen.
      specialize (Hin t21 (or_introl eq_refl)).
      destruct (Z.ltb_spec (t21 - hour) (last_attempt_at r)); lia.
Qed.

Lemma check_other_key (limits : gmap string RateLimit) (now : Z) (k : string) :
  k <> ip ->
  snd (check_verification_rate_limit limits ip vid now) !! k = limits !! k.
Proof.
  intros Hk. unfold check_verification_rate_limit.
  destruct (blocked _ _); [reflexivity|].
  destruct (_ <=? _); cbn [snd]; now rewrite lookup_insert_ne.
Qed.

End RateLimitMore.

(** X15: at most twenty calls an hour.  From a key without a row, of the
    calls made within one hour of the first, the first twenty are allowed and
    all the following ones are refused, whatever their order in time. *)
Theorem at_most_twenty_allowed_within_an_hour
    (limits : gmap string RateLimit) (ip : string) (vid : option string)
    (t1 : Z) (rest : list Z) :
  limits !! ip = None ->
  (forall t, In t rest -> t1 <= t < t1 + RateLimiter.hour) ->
  fst (RateLimiter.calls limits ip vid (t1 :: rest))
  = repeat true (Nat.min (S (length rest)) 20)
    ++ repeat false (S (length rest) - 20).
Proof. apply calls_within_an_hour. Qed.

Lemma at_most_twenty_allowed_within_an_hour_witness :
  fst (RateLimiter.calls ∅ "203.0.113.7" None
         (0 :: map (fun k => Z.of_nat k * minute) (seq 1 24)))
  = repeat true 20 ++ repeat false 5.
Proof.
  apply (at_most_twenty_allowed_within_an_hour ∅ "203.0.113.7" None 0
           (map (fun k => Z.of_nat k * minute) (seq 1 24))).
  - reflexivity.
  - intros t Ht. vm_compute in Ht.
    repeat (destruct Ht as [<-|Ht]; [vm_compute; split; [discriminate | reflexivity]|]).
    destruct Ht.
Defined.

(** X16: a call reads and writes the caller's row only.  Rows of other keys
    are untouched; a call refused because the key is blocked changes nothing;
    any other call leaves a row for the key with [last_attempt_at] at the
    call, [attempt_count] one above the former count (1 for a new key), and
    [blocked_until] one hour ahead when it is refused, unchanged when it is
    allowed. *)
Theorem rate_limit_call_touches_one_row
    (limits : gmap string RateLimit) (ip : string) (vid : option string) (now : Z) :
  let out := RateLimiter.check_verification_rate_limit limits ip vid now in
  (forall k, k <> ip -> snd out !! k = limits !! k)
  /\ (RateLimiter.blocked (limits !! ip) now = true -> out = (false, limits))
  /\ (RateLimiter.blocked (limits !! ip) now = false ->
      exists row,
        snd out !! ip = Some row
        /\ last_attempt_at row = now
        /\ attempt_count row
           = match limits !! ip with Some r => attempt_count r + 1 | None => 1 end
        /\ blocked_until row
           = if fst out then limits !! ip ≫= blocked_until
             else Some (now + RateLimiter.hour)).
Proof.
  intros out. subst out. split; [intros k; apply check_other_key|].
  split; [apply check_blocked|].
  intros Hb. unfold RateLimiter.check_verification_rate_limit. rewrite Hb.
  destruct (_ <=? _); cbn [fst snd]; rewrite lookup_insert_eq;
    eexists; (split; [reflexivity|]); destruct (limits !! ip); repeat split.
Qed.

(** X17: the counter is never reset.  Once a key has twenty attempts on its
    row, a call is allowed exactly when the key is not blocked and its last
    attempt is at least one hour old; the allowed call raises the count
    further and moves the last attempt to the call. *)
Theorem past_the_threshold_one_call_per_idle_hour
    (limits : gmap string RateLimit) (ip : string) (vid : option string)
    (r : RateLimit) (now : Z) :
  limits !! ip = Some r ->
  RateLimiter.threshold <= attempt_count r ->
  let out := RateLimiter.check_verification_rate_limit limits ip vid now in
  (fst out = true <->
   RateLimiter.blocked (Some r) now = false
   /\ last_attempt_at r + RateLimiter.hour <= now)
  /\ (fst out = true ->
      exists row, snd out !! ip = Some row
                  /\ RateLimiter.threshold <= attempt_count row
                  /\ last_attempt_at row = now).
Proof.
  intros Hr Hcount out. subst out.
  unfold RateLimiter.check_verification_rate_limit. rewrite Hr.
  destruct (RateLimiter.blocked (Some r) now) eqn:Hb.
  { split; [split; [discriminate | intros [? _]; discriminate] | discriminate]. }
  cbn [RateLimiter.current_attempts].
  destruct (Z.ltb_spec (now - RateLimiter.hour) (last_attempt_at r)) as [Hin|Hout].
  - destruct (Z.leb_spec RateLimiter.threshold (attempt_count r)); [|lia].
    split; [split; [discriminate | intros [_ ?]; lia] | discriminate].
  - destruct (Z.leb_spec RateLimiter.threshold 0);
      [unfold RateLimiter.threshold in *; lia|].
    cbn [fst snd]. split; [split; [intros _; split; [reflexivity | lia] | reflexivity]|].
    intros _. rewrite lookup_insert_eq. eexists. split; [reflexivity|].
    cbn [RateLimiter.attempt_upsert attempt_count last_attempt_at].
    split; [lia | reflexivity].
Qed.

Lemma past_the_threshold_one_call_per_idle_hour_witness :
  let limits := snd (RateLimiter.calls ∅ "203.0.113.7" None (every_minute 0)) in
  fst (RateLimiter.check_verification_rate_limit limits "203.0.113.7" None
         (19 * minute + RateLimiter.hour)) = true.
Proof.
  intros limits.
  eassert (Hr : limits !! "203.0.113.7"%string = Some _) by (vm_compute; reflexivity).
  apply (past_the_threshold_one_call_per_idle_hour limits "203.0.113.7" None _ _ Hr).
  - vm_compute. discriminate.
  - split; vm_compute; [reflexivity | discriminate].
Defined.

(** ** The public verification endpoint *)

Section PublicEndpoint.

Import VerifyTranscript.

Lemma serve_frame (s : db) (req : Request) (clk : Clock) (fl : Faults) :
  same_outside_limits_and_audit s (snd (serve s req clk fl)).
Proof.
  unfold serve, same_outside_limits_and_audit.
  destruct (is_options req); [repeat split|].
  destruct (body req) as [b|]; [|repeat split].
  destruct (or_string (verification_id b) None) as [vid|]; [|repeat split].
  destruct (negb _); [repeat split|].
  destruct (rate_limit_fails fl); [repeat split|].
  destruct (RateLimiter.check_verification_rate_limit _ _ _ _) as [ok limits].
  destruct ok; [|repeat split]. cbn [negb].
  destruct (transcript_query_fails fl); [repeat split|].
  destruct (maybeSingle _) as [[tr|]|]; try (repeat split; fail).
  destruct (audit_insert_fails fl); repeat split.
Qed.

Lemma serve_limits (s : db) (req : Request) (clk : Clock) (fl : Faults) (b : Body) :
  body req = Some b ->
  verification_rate_limits (snd (serve s req clk fl)) = verification_rate_limits s
  \/ exists vid,
       verification_rate_limits (snd (serve s req clk fl))
       = snd (RateLimiter.check_verification_rate_limit
                (verification_rate_limits s) (clientIP b req) (Some vid)
                (limit_now clk)).
Proof.
  intros Hb. unfold serve. rewrite Hb.
  destruct (is_options req); [now left|].
  destruct (or_string (verification_id b) None) as [vid|]; [|now left].
  destruct (negb _); [now left|].
  destruct (rate_limit_fails fl); [now left|].
  right. exists vid.
  destruct (RateLimiter.check_verification_rate_limit _ _ _ _) as [ok limits].
  destruct ok; [|reflexivity]. cbn [negb snd].
  destruct (transcript_query_fails fl); [reflexivity|].
  destruct (maybeSingle _) as [[tr|]|]; try reflexivity.
  now destruct (audit_insert_fails fl).
Qed.

Lemma code_inj (c : ascii) (n : N) : code c = Z.of_N n -> c = ascii_of_N n.
Proof.
  unfold code. intros H. apply N2Z.inj in H. rewrite <- H.
  symmetry. apply ascii_N_embedding.
Qed.

Lemma skip_digits_split (s : string) :
  exists ds, s = (ds ++ skip_digits s)%string /\ all_chars is_digit ds = true.
Proof.
  induction s as [|c s (ds & Hs & Hd)]; [exists EmptyString; split; reflexivity|].
  cbn [skip_digits]. destruct (is_digit c) eqn:Hc.
  - exists (String c ds). split.
    + change (String c s = String c (ds ++ skip_digits s)). f_equal. exact Hs.
    + change (is_digit c && all_chars is_digit ds = true). now rewrite Hc, Hd.
  - exists EmptyString. split; reflexivity.
Qed.

Lemma skip_digits_app (ds tail : string) :
  all_chars is_digit ds = true ->
  skip_digits (ds ++ String "-" tail) = String "-" tail.
Proof.
  induction ds as [|c ds IH]; intros H; [reflexivity|].
  cbn in H. apply andb_prop in H as [Hc Hd].
  change (skip_digits (String c (ds ++ String "-" tail)) = String "-" tail).
  cbn [skip_digits]. rewrite Hc. now apply IH.
Qed.

End PublicEndpoint.

(** X18: [verify-transcript] never writes students, transcripts, attempts,
    institutions or batches.  A request whose identifier is missing, empty or
    not of the form [VT-digits-alphanumerics] is answered 400 before the rate
    limiter is consulted, and leaves the whole store, rate limits included,
    as it was.  A request that reaches the rate limiter changes the row of
    its client address only. *)
Theorem malformed_verification_costs_nothing
    (s : db) (req : VerifyTranscript.Request) (clk : VerifyTranscript.Clock)
    (fl : VerifyTranscript.Faults) (b : VerifyTranscript.Body) :
  VerifyTranscript.is_options req = false ->
  VerifyTranscript.body req = Some b ->
  let out := VerifyTranscript.serve s req clk fl in
  same_outside_limits_and_audit s (snd out)
  /\ (or_string (VerifyTranscript.verification_id b) None = None ->
      out = (VerifyTranscript.InvalidFormat, s))
  /\ (forall vid, or_string (VerifyTranscript.verification_id b) None = Some vid ->
                  VerifyTranscript.verificationIdRegex (VerifyTranscript.trim vid) = false ->
                  out = (VerifyTranscript.InvalidPattern, s))
  /\ (forall k, k <> VerifyTranscript.clientIP b req ->
                verification_rate_limits (snd out) !! k
                = verification_rate_limits s !! k).
Proof.
  intros Hopt Hb out. subst out.
  split; [apply serve_frame|].
  split; [intros Hnone; unfold VerifyTranscript.serve; now rewrite Hopt, Hb, Hnone|].
  split.
  - intros vid Hvid Hre. unfold VerifyTranscript.serve.
    now rewrite Hopt, Hb, Hvid, Hre.
  - intros k Hk. destruct (serve_limits s req clk fl b Hb) as [->|[vid ->]];
      [reflexivity|]. now apply check_other_key.
Qed.

Lemma malformed_verification_costs_nothing_witness :
  VerifyTranscript.serve (sample_db 0)
    {| VerifyTranscript.is_options := false;
       VerifyTranscript.body :=
         Some {| VerifyTranscript.verification_id := Some "VT-12x-abc"%string;
                 VerifyTranscript.ip_address := None |};
       VerifyTranscript.x_forwarded_for := None;
       VerifyTranscript.x_real_ip := None |}
    {| VerifyTranscript.limit_now := 0; VerifyTranscript.audit_now := 0 |}
    {| VerifyTranscript.rate_limit_fails := false;
       VerifyTranscript.transcript_query_fails := false;
       VerifyTranscript.student_query_fails := false;
       VerifyTranscript.audit_insert_fails := false |}
  = (VerifyTranscript.InvalidPattern, sample_db 0).
Proof.
  eapply (malformed_verification_costs_nothing (sample_db 0)); reflexivity.
Defined.

(** X19: the rate-limit key is what the body says.  An IPv4 address given
    as [ip_address] in the body is the client address whatever the
    forwarding headers carry; so when the rate-limit call goes through, a
    well-formed request naming an address that has no row is not answered
    as rate limited, however blocked the addresses in its headers are, and
    leaves a row for the named address with one attempt. *)
Theorem body_address_selects_the_rate_limit_row
    (s : db) (req : VerifyTranscript.Request) (clk : VerifyTranscript.Clock)
    (fl : VerifyTranscript.Faults) (b : VerifyTranscript.Body) (ip vid : string) :
  VerifyTranscript.is_options req = false ->
  VerifyTranscript.body req = Some b ->
  VerifyTranscript.ip_address b = Some ip ->
  is_ipv4 ip = true ->
  or_string (VerifyTranscript.verification_id b) None = Some vid ->
  VerifyTranscript.verificationIdRegex (VerifyTranscript.trim vid) = true ->
  VerifyTranscript.rate_limit_fails fl = false ->
  verification_rate_limits s !! ip = None ->
  VerifyTranscript.clientIP b req = ip
  /\ fst (VerifyTranscript.serve s req clk fl) <> VerifyTranscript.RateLimited
  /\ (exists row, verification_rate_limits
                    (snd (VerifyTranscript.serve s req clk fl)) !! ip = Some row
                  /\ attempt_count row = 1
                  /\ blocked_until row = None)
  /\ forall k, k <> ip ->
       verification_rate_limits (snd (VerifyTranscript.serve s req clk fl)) !! k
       = verification_rate_limits s !! k.
Proof.
  intros Hopt Hb Hip Hv4 Hvid Hre Hrpc Hfresh.
  assert (Hclient : VerifyTranscript.clientIP b req = ip).
  { unfold VerifyTranscript.clientIP. rewrite Hip.
    destruct ip; [discriminate Hv4 | reflexivity]. }
  split; [exact Hclient|].
  assert (Hrow : fst (VerifyTranscript.serve s req clk fl) <> VerifyTranscript.RateLimited
                 /\ exists row, verification_rate_limits
                                  (snd (VerifyTranscript.serve s req clk fl)) !! ip
                                = Some row
                                /\ attempt_count row = 1 /\ blocked_until row = None).
  { unfold VerifyTranscript.serve.
    rewrite Hopt, Hb, Hvid, Hre, Hrpc, Hclient. cbn [negb].
    rewrite (check_allowed ip (Some vid) (verification_rate_limits s)
               (VerifyTranscript.limit_now clk))
      by (rewrite Hfresh; reflexivity).
    cbn [negb]. rewrite Hfresh.
    destruct (VerifyTranscript.transcript_query_fails fl).
    - split; [discriminate|]. cbn. rewrite lookup_insert_eq. eauto.
    - destruct (maybeSingle _) as [[tr|]|]; (split; [discriminate|]);
        try destruct (VerifyTranscript.audit_insert_fails fl);
        cbn; rewrite lookup_insert_eq; eauto. }
  split; [apply Hrow|]. split; [apply Hrow|].
  intros k Hk. rewrite <- Hclient in Hk.
  destruct (serve_limits s req clk fl b Hb) as [->|[vid' ->]]; [reflexivity|].
  now apply check_other_key.
Qed.

Lemma body_address_selects_the_rate_limit_row_witness :
  let req :=
    {| VerifyTranscript.is_options := false;
       VerifyTranscript.body :=
         Some {| VerifyTranscript.verification_id := Some "VT-1-a"%string;
                 VerifyTranscript.ip_address := Some "198.51.100.9"%string |};
       VerifyTranscript.x_forwarded_for := Some "203.0.113.7"%string;
       VerifyTranscript.x_real_ip := None |} in
  let out :=
    VerifyTranscript.serve (sample_db 0) req
      {| VerifyTranscript.limit_now := 0; VerifyTranscript.audit_now := 0 |}
      {| VerifyTranscript.rate_limit_fails := false;
         VerifyTranscript.transcript_query_fails := false;
         VerifyTranscript.student_query_fails := false;
         VerifyTranscript.audit_insert_fails := false |} in
  fst out <> VerifyTranscript.RateLimited
  /\ (exists row, verification_rate_limits (snd out) !! "198.51.100.9"%string = Some row
                  /\ attempt_count row = 1)
  /\ verification_rate_limits (snd out) !! "203.0.113.7"%string = None.
Proof.
  intros req out.
  destruct (body_address_selects_the_rate_limit_row (sample_db 0) req
              {| VerifyTranscript.limit_now := 0; VerifyTranscript.audit_now := 0 |}
              {| VerifyTranscript.rate_limit_fails := false;
                 VerifyTranscript.transcript_query_fails := false;
                 VerifyTranscript.student_query_fails := false;
                 VerifyTranscript.audit_insert_fails := false |}
              {| VerifyTranscript.verification_id := Some "VT-1-a"%string;
                 VerifyTranscript.ip_address := Some "198.51.100.9"%string |}
              "198.51.100.9" "VT-1-a")
    as (_ & H2 & (row & Hrow & Hcount & _) & H4); try reflexivity.
  split; [exact H2|]. split; [exists row; split; assumption|].
  subst out. rewrite H4; [reflexivity | discriminate].
Defined.

(** X20: the identifiers the format check accepts are exactly [VT] in either
    case, a dash, one or more decimal digits, a dash, and one or more ASCII
    letters or digits, with nothing before or after. *)
Theorem accepted_verification_ids (s : string) :
  VerifyTranscript.verificationIdRegex s = true <->
  exists (v t : ascii) (digits tail : string),
    s = String v (String t (String "-" (digits ++ String "-" tail)))
    /\ (v = "V"%char \/ v = "v"%char) /\ (t = "T"%char \/ t = "t"%char)
    /\ digits <> EmptyString /\ all_chars VerifyTranscript.is_digit digits = true
    /\ tail <> EmptyString /\ VerifyTranscript.all_alnum tail = true.
Proof.
  split.
  - unfold VerifyTranscript.verificationIdRegex.
    destruct s as [|v [|t [|dash [|d rest]]]]; try discriminate.
    intros H. repeat (apply andb_prop in H as [H ?]).
    destruct (skip_digits_split rest) as (ds & Hrest & Hds).
    destruct (VerifyTranscript.skip_digits rest) as [|dash2 [|a tail]];
      try discriminate.
    match goal with
    | Hm : _ && _ && _ = true |- _ =>
        apply andb_prop in Hm as [Hm Htail]; apply andb_prop in Hm as [Hd2 Ha]
    end.
    exists v, t, (String d ds), (String a tail).
    apply Z.eqb_eq in Hd2. apply (code_inj dash2 45) in Hd2. subst dash2.
    match goal with
    | Hdash : (VerifyTranscript.code dash =? 45) = true |- _ =>
        apply Z.eqb_eq in Hdash; apply (code_inj dash 45) in Hdash; subst dash
    end.
    split; [rewrite Hrest; reflexivity|].
    split.
    { match goal with
      | Hv : (VerifyTranscript.code v =? 86) || _ = true |- _ =>
          apply orb_prop in Hv as [Hv|Hv]; apply Z.eqb_eq in Hv;
          [left; exact (code_inj v 86 Hv) | right; exact (code_inj v 118 Hv)]
      end. }
    split.
    { match goal with
      | Ht : (VerifyTranscript.code t =? 84) || _ = true |- _ =>
          apply orb_prop in Ht as [Ht|Ht]; apply Z.eqb_eq in Ht;
          [left; exact (code_inj t 84 Ht) | right; exact (code_inj t 116 Ht)]
      end. }
    split; [discriminate|].
    split; [cbn; match goal with Hd : VerifyTranscript.is_digit d = true |- _ =>
                   now rewrite Hd, Hds end|].
    split; [discriminate|]. cbn. now rewrite Ha, Htail.
  - intros (v & t & digits & tail & -> & Hv & Ht & Hdne & Hd & Htne & Htail).
    destruct digits as [|d ds]; [contradiction|].
    destruct tail as [|a tail]; [contradiction|].
    cbn in Hd. apply andb_prop in Hd as [Hd Hds].
    cbn in Htail. apply andb_prop in Htail as [Ha Htail].
    change (String d ds ++ String "-" (String a tail))%string
      with (String d (ds ++ String "-" (String a tail))).
    unfold VerifyTranscript.verificationIdRegex.
    rewrite (skip_digits_app ds (String a tail) Hds), Hd, Ha, Htail.
    destruct Hv as [-> | ->], Ht as [-> | ->]; reflexivity.
Qed.

Lemma accepted_verification_ids_witness :
  VerifyTranscript.verificationIdRegex "vt-2024-Ab9" = true.
Proof.
  apply accepted_verification_ids.
  exists "v"%char, "t"%char, "2024"%string, "Ab9"%string.
  repeat split; try discriminate; auto.
Defined.

Lemma rate_limit_call_touches_one_row_witness :
  RateLimiter.check_verification_rate_limit
    (snd (RateLimiter.calls ∅ "203.0.113.7" None (every_minute 0 ++ [20 * minute])))
    "203.0.113.7" None (61 * minute)
  = (false,
     snd (RateLimiter.calls ∅ "203.0.113.7" None (every_minute 0 ++ [20 * minute]))).
Proof.
  apply (rate_limit_call_touches_one_row
           (snd (RateLimiter.calls ∅ "203.0.113.7" None
                   (every_minute 0 ++ [20 * minute])))
           "203.0.113.7" None (61 * minute)).
  vm_compute. reflexivity.
Defined.

Lemma attempts_are_append_only_witness :
  exists extra,
    verification_attempts
      (snd (ResetVerificationCount.serve (sample_db 3)
              (reset_request "Bearer t1" "stu-1") 1000 no_faults))
    = verification_attempts (sample_db 3) ++ extra
    /\ forall a, a ∈ extra ->
                 va_verification_id a = ResetVerificationCount.RESET_BY_INSTITUTION.
Proof.
  destruct (attempts_are_append_only (sample_db 3) (verify_request sample_body)
              (clock_at 0) (verify_faults false)
              (reset_request "Bearer t1" "stu-1") 1000 no_faults)
    as (_ & _ & extra & Hextra & _ & Hmark).
  exists extra. split; [exact Hextra | exact Hmark].
Defined.

(** X21: the repeat of a verified call is suppressed.  When a call was
    answered as verified and its attempt row was written, a call for the same
    identifier whose five-second window reaches back to that row and holds
    fewer than five earlier attempts on the identifier is answered 429 and
    writes nothing: no attempt row, no quota. *)
Theorem repeat_within_the_window_is_suppressed
    (s s1 : db) (b : VerifyWithLimit.Body)
    (clk1 clk2 : VerifyWithLimit.Clock) (fl1 fl2 : VerifyWithLimit.Faults)
    (v : VerifyWithLimit.Verification) :
  VerifyWithLimit.serve s (verify_request b) clk1 fl1
  = (VerifyWithLimit.Verified v, s1) ->
  VerifyWithLimit.attempt_insert_fails fl1 = false ->
  VerifyWithLimit.recent_query_fails fl2 = false ->
  VerifyWithLimit.at_check clk2 - 5000 <= VerifyWithLimit.at_insert clk1 ->
  (length (filter (VerifyWithLimit.recent (VerifyWithLimit.verificationId b)
                     (VerifyWithLimit.at_check clk2))
             (verification_attempts s)) < 5)%nat ->
  VerifyWithLimit.serve s1 (verify_request b) clk2 fl2
  = (VerifyWithLimit.AlreadyCompleted, s1)
  /\ VerifyWithLimit.status VerifyWithLimit.AlreadyCompleted = 429.
Proof.
  intros H Hins Hq Hwin Hfew. split; [|reflexivity].
  exact (duplicate_suppressed s s1 b clk1 clk2 fl1 fl2 v H Hins Hq Hwin Hfew).
Qed.

Lemma repeat_within_the_window_is_suppressed_witness :
  exists v s1,
    VerifyWithLimit.serve (sample_db 0) (verify_request sample_body) (clock_at 1000)
      (verify_faults false)
    = (VerifyWithLimit.Verified v, s1)
    /\ VerifyWithLimit.serve s1 (verify_request sample_body) (clock_at 6000)
         (verify_faults false)
       = (VerifyWithLimit.AlreadyCompleted, s1).
Proof.
  eassert (E : VerifyWithLimit.serve (sample_db 0) (verify_request sample_body)
                 (clock_at 1000) (verify_faults false)
               = (VerifyWithLimit.Verified _, _))
    by (vm_compute; reflexivity).
  do 2 eexists. split; [exact E|].
  apply (repeat_within_the_window_is_suppressed _ _ _ _ (clock_at 6000) _
           (verify_faults false) _ E);
    [reflexivity | reflexivity | vm_compute; discriminate | vm_compute; lia].
Defined.
